(** * PyIDM utility layer ([pyidm/utils.py]): range planning, request
    configuration and the log recorder.

    The development embeds five functions of [utils.py]:
    [size_splitter], [get_seg_size], [get_range_list], [set_curl_options]
    and [log_recorder].  Python integers are [Z]; Python text is [string]
    (one [ascii] per character, so the model covers ASCII text) except
    for file names, which are sequences of code points; a raised
    exception is a value of the error monad [exc]. *)

From Stdlib Require Import ZArith List String Ascii Bool Lia Sorted.
From Stdlib Require Import DecimalString DecimalZ.
Import ListNotations.

Local Open Scope string_scope.
Local Open Scope list_scope.
Local Open Scope Z_scope.

(* ================================================================== *)
(** ** A small Python prelude *)
(* ================================================================== *)

Module Py.

(** The exceptions the modelled code can meet. *)
Inductive pyexn : Type :=
| AttributeError
| TypeError
| ValueError
| IndexError
| ZeroDivisionError
| OSError (msg : string).

(** A computation that returns a value or raises. *)
Inductive exc (A : Type) : Type :=
| Ok (a : A)
| Raise (e : pyexn).

Arguments Ok {A} a.
Arguments Raise {A} e.

Definition bind {A B : Type} (m : exc A) (k : A -> exc B) : exc B :=
  match m with
  | Ok a => k a
  | Raise e => Raise e
  end.

Notation "x <- m ;; k" := (bind m (fun x => k))
  (at level 61, m at next level, right associativity).
Notation "' pat <- m ;; k" := (bind m (fun x => match x with pat => k end))
  (at level 61, pat pattern, m at next level, right associativity).

(** The values a caller may hand to [get_seg_size]: only [PyStr] has a
    [split] method that accepts the text separator ['-']. *)
Inductive pyval : Type :=
| PyNone
| PyInt (z : Z)
| PyStr (s : string)
| PyBytes (b : string)
| PyPair (a b : Z).

(** [a // b] *)
Definition floordiv (a b : Z) : exc Z :=
  if b =? 0 then Raise ZeroDivisionError else Ok (a / b).

(** [x or y] on integers *)
Definition int_or (x y : Z) : Z := if x =? 0 then y else x.

(** [range(n)] *)
Definition range (n : Z) : list Z := map Z.of_nat (seq 0 (Z.to_nat n)).

(** [str(z)], which is also how an f-string renders an integer. *)
Definition str_of_int (z : Z) : string := NilZero.string_of_int (Z.to_int z).

(** [s.split(sep)] for a one-character separator: every occurrence splits,
    and the result is never empty. *)
Fixpoint split (sep : ascii) (s : string) : list string :=
  match s with
  | EmptyString => [EmptyString]
  | String c r =>
      if Ascii.eqb c sep then EmptyString :: split sep r
      else match split sep r with
           | h :: t => String c h :: t
           | [] => [String c EmptyString]
           end
  end.

(** [seg.split(sep)] as a method call on an arbitrary value. *)
Definition method_split (seg : pyval) (sep : ascii) : exc (list string) :=
  match seg with
  | PyStr s => Ok (split sep s)
  | PyBytes _ => Raise TypeError
  | PyNone | PyInt _ | PyPair _ _ => Raise AttributeError
  end.

(** [l[i]] *)
Definition index {A : Type} (l : list A) (i : nat) : exc A :=
  match nth_error l i with
  | Some a => Ok a
  | None => Raise IndexError
  end.

(** *** [int(text)]

    Surrounding whitespace is dropped, one sign is allowed, and the rest
    is a non-empty run of decimal digits in which single underscores may
    separate digits. *)

Definition is_space (c : ascii) : bool :=
  let n := nat_of_ascii c in
  (Nat.eqb n 32 || (Nat.leb 9 n && Nat.leb n 13))%bool.

Definition is_digit (c : ascii) : bool :=
  let n := nat_of_ascii c in (Nat.leb 48 n && Nat.leb n 57)%bool.

Fixpoint lstrip (s : string) : string :=
  match s with
  | EmptyString => EmptyString
  | String c r => if is_space c then lstrip r else s
  end.

Fixpoint rstrip (s : string) : string :=
  match s with
  | EmptyString => EmptyString
  | String c r =>
      match rstrip r with
      | EmptyString => if is_space c then EmptyString else String c EmptyString
      | r' => String c r'
      end
  end.

Definition strip (s : string) : string := rstrip (lstrip s).

(** The digits of a literal body, underscores removed; [None] when the
    body is not [digit (["_"] digit)*]. *)
Fixpoint int_digits (after_digit : bool) (s : string) : option string :=
  match s with
  | EmptyString => if after_digit then Some EmptyString else None
  | String c r =>
      if is_digit c then option_map (String c) (int_digits true r)
      else if Ascii.eqb c "_" then
             if after_digit then int_digits false r else None
           else None
  end.

Definition int_unsigned (s : string) : exc Z :=
  match int_digits false s with
  | Some ds =>
      match NilEmpty.uint_of_string ds with
      | Some u => Ok (Z.of_uint u)
      | None => Raise ValueError
      end
  | None => Raise ValueError
  end.

Definition int_of_str (s : string) : exc Z :=
  match strip s with
  | String "+" r => int_unsigned r
  | String "-" r => n <- int_unsigned r ;; Ok (- n)
  | t => int_unsigned t
  end.

(** Text made of decimal digits only. *)
Fixpoint digits_only (s : string) : bool :=
  match s with
  | EmptyString => true
  | String c r => (is_digit c && digits_only r)%bool
  end.

(** [''.join(l)] *)
Fixpoint join (l : list string) : string :=
  match l with
  | [] => EmptyString
  | s :: t => (s ++ join t)%string
  end.

End Py.

Import Py.

(** The attributes of the [config] module that the modelled functions
    read.  [cacert] stands for the path [certifi.where()] returns. *)
Record config : Type := {
  segment_size : Z;
  max_connections : Z;
  HEADERS : list (string * string);
  proxy : string;
  referer_url : string;
  use_cookies : bool;
  cookie_file_path : string;
  username : string;
  password : string;
  log_level : Z;
  cacert : string
}.

(* ================================================================== *)
(** ** [size_splitter] and [get_seg_size] *)
(* ================================================================== *)

(** [f'{x}-{y}'] *)
Definition range_name (x y : Z) : string :=
  (str_of_int x ++ "-" ++ str_of_int y)%string.

(** State of the [for] loop of [size_splitter]: the running start [x] and
    the list built so far. *)
Definition splitter_step (span size : Z) (st : Z * list string) (i : Z)
  : Z * list string :=
  let '(x, result) := st in
  let y := x + span - 1 in
  let y := if size - y <? span then size else y in
  (y + 1, result ++ [range_name x y]).

Definition size_splitter (size part_size : Z) : exc (list string) :=
  let result := [] in
  if size =? 0 then Ok (result ++ ["0-0"])
  else
    let span := if part_size <=? size then part_size else size in
    q <- floordiv size span ;;
    let parts := Z.max q 1 in
    let x := 0 in
    let size := size - 1 in
    Ok (snd (fold_left (splitter_step span size) (range parts) (x, result))).

(** The first statement of the [try] body of [get_seg_size]. *)
Definition seg_bounds (seg : pyval) : exc (Z * Z) :=
  p0 <- method_split seg "-" ;;
  s0 <- index p0 0 ;;
  a <- int_of_str s0 ;;
  p1 <- method_split seg "-" ;;
  s1 <- index p1 1 ;;
  b <- int_of_str s1 ;;
  Ok (a, b).

Definition get_seg_size_try (seg : pyval) : exc Z :=
  '(a, b) <- seg_bounds seg ;;
  let size := if b >? 0 then b - a + 1 else 0 in
  Ok size.

(** The bare [except:] turns every exception into [0]. *)
Definition get_seg_size (seg : pyval) : Z :=
  match get_seg_size_try seg with
  | Ok size => size
  | Raise _ => 0
  end.

(* ================================================================== *)
(** ** [get_range_list] *)
(* ================================================================== *)

(** An entry of the returned list: [None] or the two-element list
    [[start, end]]. *)
Definition range_entry : Type := option (Z * Z).

(** One pass of the [for] loop; the state is [(start, end, range_list)]. *)
Definition range_list_step (file_size seg_nums seg_size : Z)
  (st : Z * Z * list range_entry) (i : Z) : Z * Z * list range_entry :=
  let '(start, end_, range_list) := st in
  let start := if i =? 0 then 0 else start + seg_size in
  let end_ := if i <? seg_nums - 1 then start + seg_size - 1
              else file_size - 1 in
  (start, end_, range_list ++ [Some (start, end_)]).

Definition get_range_list (cfg : config) (file_size : Z)
  : exc (list range_entry) :=
  if file_size =? 0 then Ok [None]
  else
    let range_list := [] in
    q <- floordiv file_size (segment_size cfg) ;;
    let max_seg_nums := int_or q 1 in
    let seg_nums := Z.min max_seg_nums (max_connections cfg) in
    seg_size <- floordiv file_size seg_nums ;;
    let start := 0 in
    let end_ := 0 in
    Ok (snd (fold_left (range_list_step file_size seg_nums seg_size)
                       (range seg_nums) (start, end_, range_list))).

(* ================================================================== *)
(** ** [set_curl_options] *)
(* ================================================================== *)

Module Curl.

Inductive curlopt : Type :=
| HTTPHEADER | PROXY | REFERER | AUTOREFERER | COOKIEFILE
| USERNAME | PASSWORD | FOLLOWLOCATION | MAXREDIRS
| NOSIGNAL | NOPROGRESS | CAINFO | PROXY_CAINFO
| CONNECTTIMEOUT | LOW_SPEED_LIMIT | LOW_SPEED_TIME
| VERBOSE | HEADEROPT | TIMEOUT.

Inductive curlval : Type :=
| VInt (z : Z)
| VStr (s : string)
| VList (l : list string).

Definition curlopt_eq_dec (a b : curlopt) : {a = b} + {a <> b}.
Proof. decide equality. Defined.

(** A handle is the sequence of [setopt] calls made on it, oldest first. *)
Definition handle : Type := list (curlopt * curlval).

Definition setopt (c : handle) (o : curlopt) (v : curlval) : handle :=
  c ++ [(o, v)].

(** The value in force for an option: the one of the latest call. *)
Fixpoint getopt_from (newest_first : handle) (o : curlopt) : option curlval :=
  match newest_first with
  | [] => None
  | (o', v) :: older =>
      if curlopt_eq_dec o' o then Some v else getopt_from older o
  end.

Definition getopt (c : handle) (o : curlopt) : option curlval :=
  getopt_from (rev c) o.

(** Truth value of a Python string and of a dict. *)
Definition truthy (s : string) : bool :=
  match s with EmptyString => false | _ => true end.

Definition dict_truthy (d : list (string * string)) : bool :=
  match d with [] => false | _ => true end.

End Curl.

Import Curl.

(** [set_curl_options(c, http_headers)]; a dict is its list of items. *)
Definition set_curl_options (cfg : config) (c : handle)
  (http_headers : option (list (string * string))) : handle :=
  let http_headers :=
    match http_headers with
    | Some d => if dict_truthy d then d else HEADERS cfg
    | None => HEADERS cfg
    end in
  let headers :=
    map (fun kv => (fst kv ++ ":" ++ snd kv)%string) http_headers in
  let c := setopt c HTTPHEADER (VList headers) in
  let c := setopt c PROXY (VStr (proxy cfg)) in
  let c := if truthy (referer_url cfg)
           then setopt c REFERER (VStr (referer_url cfg))
           else setopt c AUTOREFERER (VInt 1) in
  let c := if use_cookies cfg
           then setopt c COOKIEFILE (VStr (cookie_file_path cfg))
           else c in
  let c := if (truthy (username cfg) || truthy (password cfg))%bool
           then setopt (setopt c USERNAME (VStr (username cfg)))
                       PASSWORD (VStr (password cfg))
           else c in
  let c := setopt c FOLLOWLOCATION (VInt 1) in
  let c := setopt c MAXREDIRS (VInt 10) in
  let c := setopt c NOSIGNAL (VInt 1) in
  let c := setopt c NOPROGRESS (VInt 1) in
  let c := setopt c CAINFO (VStr (cacert cfg)) in
  let c := setopt c PROXY_CAINFO (VStr (cacert cfg)) in
  let c := setopt c CONNECTTIMEOUT (VInt 10) in
  let c := setopt c LOW_SPEED_LIMIT (VInt 1024) in
  let c := setopt c LOW_SPEED_TIME (VInt 10) in
  let c := if log_level cfg >=? 4
           then setopt c VERBOSE (VInt 1)
           else setopt c VERBOSE (VInt 0) in
  let c := setopt c HEADEROPT (VInt 0) in
  let c := setopt c TIMEOUT (VInt 300) in
  let c := setopt c AUTOREFERER (VInt 1) in
  c.

(* ================================================================== *)
(** ** [log_recorder] *)
(* ================================================================== *)

Module LogRecorder.

(** Outcome of [with open(...) as f: f.write(buffer); buffer = ''] as far
    as the disk goes.  [IoRaise]: [open] raises and nothing is written.
    [WriteRaise written]: [f.write] raises after [written] characters of
    the batch reached the file, so the reset is not run.  [CloseRaise
    written]: [f.write] returns with the batch in Python's buffer, the
    reset runs, and the flush made when the [with] block closes the file
    raises after [written] characters reached the file. *)
Inductive io_result : Type :=
| IoOk
| IoRaise (e : string)
| WriteRaise (written : nat) (e : string)
| CloseRaise (written : nat) (e : string).

(** Where the recorder thread is: not started, in its [while] loop with
    its local [buffer], returned after [break], or dead from the
    exception of the unguarded first [open]. *)
Inductive phase : Type :=
| Idle
| Running (buffer : string)
| Stopped
| Died.

(** What the recorder thread shares with the other threads. *)
Record world : Type := {
  log_recorder_q : list string;  (* the queue, oldest record first *)
  terminate : bool;              (* [config.terminate] *)
  log_txt : string;              (* content of [log.txt] *)
  stdout : list string;          (* what was printed, oldest first *)
  recorder : phase
}.

Definition set_recorder (w : world) (ph : phase) : world :=
  {| log_recorder_q := log_recorder_q w; terminate := terminate w;
     log_txt := log_txt w; stdout := stdout w; recorder := ph |}.

(** [for _ in range(n): buffer += q.get()]; [q.get()] on an empty queue
    would block, which the single consumer never meets with
    [n = q.qsize()]. *)
Fixpoint drain (n : nat) (q : list string) (buffer : string)
  : list string * string :=
  match n, q with
  | S n', r :: q' => drain n' q' (buffer ++ r)%string
  | _, _ => (q, buffer)
  end.

(** The statements before the loop: [open(file, 'w')] truncates the file
    and the empty buffer is written.  An exception here is not caught and
    ends the thread; it leaves the file as it was when [open] raised it,
    and empty when it came later. *)
Definition log_recorder_start (io : io_result) (w : world) : world :=
  match recorder w with
  | Idle =>
      match io with
      | IoOk =>
          {| log_recorder_q := log_recorder_q w; terminate := terminate w;
             log_txt := EmptyString; stdout := stdout w;
             recorder := Running EmptyString |}
      | IoRaise _ => set_recorder w Died
      | WriteRaise _ _ | CloseRaise _ _ =>
          {| log_recorder_q := log_recorder_q w; terminate := terminate w;
             log_txt := EmptyString; stdout := stdout w;
             recorder := Died |}
      end
  | _ => w
  end.

(** [print('log_recorder()> error:', e)] *)
Definition error_line (e : string) : string :=
  ("log_recorder()> error: " ++ e)%string.

Section Encoding.

(** The characters UTF-8 can encode; the file is opened with
    [errors="ignore"], which drops the others. *)
Variable encodable : ascii -> bool.

Fixpoint encode (buffer : string) : string :=
  match buffer with
  | EmptyString => EmptyString
  | String c r => if encodable c then String c (encode r) else encode r
  end.

(** One pass of the [while True] body, after the sleep. *)
Definition log_recorder_iter (io : io_result) (w : world) : world :=
  match recorder w with
  | Running buffer =>
      if terminate w then set_recorder w Stopped
      else
        let '(q, buffer) :=
          drain (List.length (log_recorder_q w)) (log_recorder_q w) buffer in
        if Curl.truthy buffer then
          match io with
          | IoOk =>
              {| log_recorder_q := q; terminate := terminate w;
                 log_txt := (log_txt w ++ encode buffer)%string;
                 stdout := stdout w;
                 recorder := Running EmptyString |}
          | IoRaise e =>
              {| log_recorder_q := q; terminate := terminate w;
                 log_txt := log_txt w;
                 stdout := stdout w ++ [error_line e];
                 recorder := Running buffer |}
          | WriteRaise written e =>
              {| log_recorder_q := q; terminate := terminate w;
                 log_txt :=
                   (log_txt w ++ substring 0 written (encode buffer))%string;
                 stdout := stdout w ++ [error_line e];
                 recorder := Running buffer |}
          | CloseRaise written e =>
              {| log_recorder_q := q; terminate := terminate w;
                 log_txt :=
                   (log_txt w ++ substring 0 written (encode buffer))%string;
                 stdout := stdout w ++ [error_line e];
                 recorder := Running EmptyString |}
          end
        else
          {| log_recorder_q := q; terminate := terminate w;
             log_txt := log_txt w; stdout := stdout w;
             recorder := Running buffer |}
  | _ => w
  end.

(** What can happen in the process, one thread at a time: a producer
    enqueues a record, the host raises the termination flag, the recorder
    thread starts, or it wakes from its sleep and runs one pass. *)
Inductive event : Type :=
| Put (record : string)
| SetTerminate
| Start (io : io_result)
| Wake (io : io_result).

Definition step (w : world) (ev : event) : world :=
  match ev with
  | Put r =>
      {| log_recorder_q := log_recorder_q w ++ [r]; terminate := terminate w;
         log_txt := log_txt w; stdout := stdout w; recorder := recorder w |}
  | SetTerminate =>
      {| log_recorder_q := log_recorder_q w; terminate := true;
         log_txt := log_txt w; stdout := stdout w; recorder := recorder w |}
  | Start io => log_recorder_start io w
  | Wake io => log_recorder_iter io w
  end.

Definition run (evs : list event) (w : world) : world := fold_left step evs w.

End Encoding.

(** The process before the recorder thread starts; [old] is whatever a
    previous session left in the file. *)
Definition boot (old : string) : world :=
  {| log_recorder_q := []; terminate := false; log_txt := old;
     stdout := []; recorder := Idle |}.

(** The records a trace enqueues, in order. *)
Fixpoint puts (evs : list event) : list string :=
  match evs with
  | [] => []
  | Put r :: t => r :: puts t
  | _ :: t => puts t
  end.

(** A pass that leaves no batch half on the disk: the write succeeds, or
    [open] raises before anything is written. *)
Definition whole_pass (io : io_result) : Prop :=
  match io with
  | IoOk | IoRaise _ => True
  | WriteRaise _ _ | CloseRaise _ _ => False
  end.

(** A trace in which producers enqueue and the recorder runs such passes,
    and nothing else happens. *)
Definition working (evs : list event) : Prop :=
  Forall (fun ev => match ev with
                    | Put _ => True
                    | Wake io => whole_pass io
                    | _ => False
                    end) evs.

(** A trace of any events in which every pass is such a pass. *)
Definition clean (evs : list event) : Prop :=
  Forall (fun ev => match ev with
                    | Wake io => whole_pass io
                    | _ => True
                    end) evs.

(** Text taken in charge but not yet in the file: the recorder's buffer
    followed by the queued records. *)
Definition pending (w : world) : string :=
  match recorder w with
  | Running buffer => (buffer ++ join (log_recorder_q w))%string
  | _ => EmptyString
  end.

(** The line terminator, and the record [log(text)] enqueues with its
    default [end]. *)
Definition nl : string := String (ascii_of_nat 10) EmptyString.

Definition log_put (text : string) : event := Put (text ++ nl)%string.

(** Text in which every character can be encoded, and text with one
    character, the question mark, standing for one that cannot. *)
Definition all_encodable (c : ascii) : bool := true.

Definition but_question_mark (c : ascii) : bool := negb (Ascii.eqb c "?").

End LogRecorder.

(* ================================================================== *)
(** ** Properties of range lists *)
(* ================================================================== *)

Module Ranges.

Definition byte_range : Type := (Z * Z)%type.

(** Number of bytes of the inclusive range [(start, end)]. *)
Definition range_len (r : byte_range) : Z := snd r - fst r + 1.

Definition total_len (rs : list byte_range) : Z :=
  fold_right (fun r acc => range_len r + acc) 0 rs.









(** A chain from [x]: the first range starts at [x], no range is empty and
    each one starts where the previous one stopped. *)
Fixpoint chained (x : Z) (rs : list byte_range) : Prop :=
  match rs with
  | [] => True
  | (a, b) :: t => a = x /\ a <= b /\ chained (b + 1) t
  end.

(** The byte after the last one of a chain from [x]. *)
Fixpoint chain_end (x : Z) (rs : list byte_range) : Z :=
  match rs with
  | [] => x
  | (_, b) :: t => chain_end (b + 1) t
  end.

Definition name_of (r : byte_range) : string := range_name (fst r) (snd r).

(** Reading a list of range names with the parser of [get_seg_size]. *)
Fixpoint read_ranges (names : list string) : exc (list byte_range) :=
  match names with
  | [] => Ok []
  | n :: t =>
      r <- seg_bounds (PyStr n) ;;
      rs <- read_ranges t ;;
      Ok (r :: rs)
  end.



End Ranges.

Import Ranges.

(* ================================================================== *)
(** ** More of the Python prelude: slices and text methods *)
(* ================================================================== *)

Module PyText.

(** [len(s)] *)
Definition len (s : string) : Z := Z.of_nat (String.length s).

(** A slice bound brought into [0 .. n]: a negative bound counts from the
    end, and bounds outside the text are clipped. *)
Definition clamp_index (n i : Z) : Z :=
  if i <? 0 then Z.max (n + i) 0 else Z.min i n.

(** [s[start:stop]]; [None] is an omitted bound. *)
Definition slice (s : string) (start stop : option Z) : string :=
  let n := len s in
  let lo := match start with None => 0 | Some i => clamp_index n i end in
  let hi := match stop with None => n | Some j => clamp_index n j end in
  substring (Z.to_nat lo) (Z.to_nat (hi - lo)) s.

Fixpoint map_string (f : ascii -> ascii) (s : string) : string :=
  match s with
  | EmptyString => EmptyString
  | String c r => String (f c) (map_string f r)
  end.

Fixpoint forall_string (f : ascii -> bool) (s : string) : bool :=
  match s with
  | EmptyString => true
  | String c r => (f c && forall_string f r)%bool
  end.

(** [c in s] for a character [c] *)
Fixpoint has_char (c : ascii) (s : string) : bool :=
  match s with
  | EmptyString => false
  | String x r => (Ascii.eqb x c || has_char c r)%bool
  end.

(** [x in l] for a list of texts *)
Definition in_list (x : string) (l : list string) : bool :=
  existsb (String.eqb x) l.

(** [sub in s] for texts *)
Fixpoint has_text (sub s : string) : bool :=
  match s with
  | EmptyString => String.prefix sub EmptyString
  | String _ r => (String.prefix sub s || has_text sub r)%bool
  end.

(** [s.split(sep, 1)]: split at the first separator only. *)
Fixpoint split_once (sep : ascii) (s : string) : list string :=
  match s with
  | EmptyString => [EmptyString]
  | String c r =>
      if Ascii.eqb c sep then [EmptyString; r]
      else match split_once sep r with
           | h :: t => String c h :: t
           | [] => [String c EmptyString]
           end
  end.

(** [c.lower()] on the code points 0..255: the letters A-Z and the
    capital letters of Latin-1 (0xC0-0xDE but the sign 0xD7). *)
Definition lower_char (c : ascii) : ascii :=
  let n := nat_of_ascii c in
  if (Nat.leb 65 n && Nat.leb n 90)%bool then ascii_of_nat (n + 32)
  else if (Nat.leb 192 n && Nat.leb n 222 && negb (Nat.eqb n 215))%bool
       then ascii_of_nat (n + 32)
       else c.

Definition lower (s : string) : string := map_string lower_char s.

(** The white space [str.strip()] removes, on the code points 0..255. *)
Definition is_uspace (c : ascii) : bool :=
  let n := nat_of_ascii c in
  ((Nat.leb 9 n && Nat.leb n 13) || (Nat.leb 28 n && Nat.leb n 32)
   || Nat.eqb n 133 || Nat.eqb n 160)%bool.

Fixpoint ulstrip (s : string) : string :=
  match s with
  | EmptyString => EmptyString
  | String c r => if is_uspace c then ulstrip r else s
  end.

Fixpoint urstrip (s : string) : string :=
  match s with
  | EmptyString => EmptyString
  | String c r =>
      match urstrip r with
      | EmptyString => if is_uspace c then EmptyString else String c EmptyString
      | r' => String c r'
      end
  end.

(** [s.strip()] *)
Definition ustrip (s : string) : string := urstrip (ulstrip s).

(** [[int(x) for x in l]] *)
Fixpoint map_int (l : list string) : exc (list Z) :=
  match l with
  | [] => Ok []
  | x :: t =>
      n <- int_of_str x ;;
      ns <- map_int t ;;
      Ok (n :: ns)
  end.

End PyText.

Import PyText.

(* ================================================================== *)
(** ** [truncate] *)
(* ================================================================== *)

Definition truncate (string : string) (length : Z) : String.string :=
  let sep := "..." in
  if length <? len sep + 2 then slice string None (Some length)
  else if len string >? length then
    let part := (length - len sep) / 2 in
    let remainder := (length - len sep) mod 2 in
    (slice string None (Some (part + remainder))
     ++ sep ++ slice string (Some (- part)) None)%string
  else string.

(* ================================================================== *)
(** ** [validate_file_name] *)
(* ================================================================== *)

(** A file name is a sequence of code points, so that it can hold the
    characters beyond 65535 the function removes. *)
Definition text : Type := list Z.

Definition text_of_string (s : string) : text :=
  map (fun c => Z.of_nat (nat_of_ascii c)) (list_ascii_of_string s).

(** [t[start:stop]] on a sequence of code points. *)
Definition slice_text (t : text) (start stop : option Z) : text :=
  let n := Z.of_nat (List.length t) in
  let lo := match start with None => 0 | Some i => clamp_index n i end in
  let hi := match stop with None => n | Some j => clamp_index n j end in
  firstn (Z.to_nat (hi - lo)) (skipn (Z.to_nat lo) t).

(** [ord(c) in range(65536)] *)
Definition in_plane_0 (c : Z) : bool := ((0 <=? c) && (c <? 65536))%bool.

(** The characters replaced by an underscore: backslash, slash, colon,
    question mark, the angle brackets, the double quote, the bar and the
    star. *)
Definition forbidden_codes : list Z := [92; 47; 58; 63; 60; 62; 34; 124; 42].

Definition forbidden (c : Z) : bool := existsb (Z.eqb c) forbidden_codes.

(** The code of the underscore. *)
Definition underscore : Z := 95.

Definition safe_char (c : Z) : Z := if forbidden c then underscore else c.

(** The [for] loop with its [break]: [rest] is what is left to visit. *)
Fixpoint validate_loop (f_name rest safe_string : text) (char_count : Z)
  : text :=
  match rest with
  | [] => safe_string
  | c :: r =>
      let safe_string :=
        if forbidden c then safe_string ++ [underscore]
        else safe_string ++ [c] in
      if char_count >=? 245
      then safe_string ++ slice_text f_name (Some (-10)) None
      else validate_loop f_name r safe_string (char_count + 1)
  end.

Definition validate_file_name (f_name : text) : text :=
  let f_name := filter in_plane_0 f_name in
  let safe_string := [] in
  let char_count := 1 in
  validate_loop f_name f_name safe_string char_count.

(* ================================================================== *)
(** ** [compare_versions] *)
(* ================================================================== *)

(** The [for i in range(3)] loop; falling out of it leads to
    [return None]. *)
Fixpoint compare_loop (idx : list Z) (a b : list Z) (x y : string)
  : exc (option string) :=
  match idx with
  | [] => Ok None
  | i :: rest =>
      ai <- index a (Z.to_nat i) ;;
      bi <- index b (Z.to_nat i) ;;
      if ai >? bi then Ok (Some x)
      else if ai <? bi then Ok (Some y)
      else compare_loop rest a b x y
  end.

Definition compare_versions_try (x y : string) : exc (option string) :=
  a <- map_int (firstn 3 (split "." x)) ;;
  b <- map_int (firstn 3 (split "." y)) ;;
  compare_loop (range 3) a b x y.

Definition compare_versions (x y : string) : option string :=
  match compare_versions_try x y with
  | Ok r => r
  | Raise _ => None
  end.

(* ================================================================== *)
(** ** [auto_rename] *)
(* ================================================================== *)

Section AutoRename.

(** [os.path.splitext], which belongs to the platform. *)
Variable splitext : string -> string * string.

(** [f'{name}_{i}{ext}'] *)
Definition numbered_name (name ext : string) (i : Z) : string :=
  (name ++ "_" ++ str_of_int i ++ ext)%string.

(** The loop over [range(i, i + fuel)]. *)
Fixpoint auto_rename_loop (fuel : nat) (i : Z) (name ext : string)
  (file_list : list string) (new_name : string) : string :=
  match fuel with
  | O => new_name
  | S fuel' =>
      let new_name := numbered_name name ext i in
      if negb (in_list new_name file_list) then new_name
      else auto_rename_loop fuel' (i + 1) name ext file_list new_name
  end.

(** [file_list] is what [os.listdir(parent_folder)] returned. *)
Definition auto_rename (file_name : string) (file_list : list string)
  : string :=
  let '(name, ext) := splitext file_name in
  let new_name := file_name in
  auto_rename_loop (Z.to_nat (1000000 - 2)) 2 name ext file_list new_name.

End AutoRename.

(* ================================================================== *)
(** ** [log] and [popup] *)
(* ================================================================== *)

Module Logger.

(** The [dict(title=..., msg=..., type_=...)] that [popup] sends. *)
Record popup_param : Type := {
  title : string;
  msg : string;
  type_ : string
}.

(** What [log] writes to: the standard output (the chunks written,
    oldest first), [config.log_entry] and three queues of [config]. *)
Record log_state : Type := {
  out : list string;
  log_entry : string;
  log_recorder_q : list string;
  log_q : list string;
  main_window_q : list popup_param
}.

(** [popup(msg, title, type_)] *)
Definition popup (msg title type_ : string) (st : log_state) : log_state :=
  let param := {| title := title; msg := msg; type_ := type_ |} in
  {| out := out st; log_entry := log_entry st;
     log_recorder_q := log_recorder_q st; log_q := log_q st;
     main_window_q := main_window_q st ++ [param] |}.

(** The loop [for arg in args: text += str(arg); text += sep]; each
    argument is given by the text [str(arg)] returns. *)
Fixpoint log_args (args : list string) (sep text : string) : string :=
  match args with
  | [] => text
  | arg :: rest => log_args rest sep ((text ++ arg) ++ sep)%string
  end.

(** The text [log] builds before it prints. *)
Definition log_text (args : list string) (start sep : string) : string :=
  let text := EmptyString in
  let text := log_args args sep text in
  let text := slice text None (Some (-1)) in
  (start ++ text)%string.

(** [log] with its positional arguments [args]; [level] is the keyword
    argument [log_level]. *)
Definition log (cfg : config) (args : list string) (level : Z)
  (start end_ sep : string) (showpopup : bool) (st : log_state) : log_state :=
  if level >? log_level cfg then st
  else
    let text := log_text args start sep in
    let st :=
      {| out := out st ++ [(text ++ end_)%string];
         log_entry := text;
         log_recorder_q := log_recorder_q st ++ [(text ++ end_)%string];
         log_q := log_q st ++ [(text ++ end_)%string];
         main_window_q := main_window_q st |} in
    if showpopup then popup text EmptyString EmptyString st else st.

(** The defaults of the keyword arguments. *)
Definition default_start : string := ">> ".
Definition default_end : string := String (ascii_of_nat 10) EmptyString.
Definition default_sep : string := " ".

(** [sep.join(args)] *)
Fixpoint join_with (sep : string) (args : list string) : string :=
  match args with
  | [] => EmptyString
  | [a] => a
  | a :: rest => (a ++ sep ++ join_with sep rest)%string
  end.

End Logger.

(* ================================================================== *)
(** ** [get_headers] *)
(* ================================================================== *)

Module Probe.

(** A value of the returned dictionary: a text, or the integer status
    code. *)
Inductive hval : Type :=
| HStr (s : string)
| HInt (z : Z).

(** A dictionary with text keys, in insertion order. *)
Definition dict : Type := list (string * hval).

(** [d[k] = v]: an existing key keeps its place. *)
Fixpoint dict_set (d : dict) (k : string) (v : hval) : dict :=
  match d with
  | [] => [(k, v)]
  | (k', v') :: t =>
      if String.eqb k' k then (k, v) :: t else (k', v') :: dict_set t k v
  end.

(** [d.get(k)] *)
Fixpoint dict_get (d : dict) (k : string) : option hval :=
  match d with
  | [] => None
  | (k', v') :: t => if String.eqb k' k then Some v' else dict_get t k
  end.

(** What [c.perform()] does as far as [get_headers] can see: the header
    lines passed to the callback, each already decoded from ISO-8859-1
    (one character per byte) and paired with the value [config.terminate]
    has when it arrives; the text of the exception [perform] raises, if
    any; and what [getinfo] reports afterwards. *)
Record transfer : Type := {
  header_lines : list (bool * string);
  failure : option string;
  response_code : Z;
  effective_url : string
}.

(** [header_callback(header_line)] on the state made of [curl_headers]
    and of the logger's state, which holds the standard output. *)
Definition header_callback (verbose : bool)
  (st : dict * Logger.log_state) (arrival : bool * string)
  : dict * Logger.log_state :=
  let '(curl_headers, ls) := st in
  let '(terminate, header_line) := arrival in
  if terminate then st
  else
    let header_line := lower header_line in
    if negb (has_char ":" header_line) then st
    else
      match split_once ":" header_line with
      | [name; value] =>
          let name := ustrip name in
          let value := ustrip value in
          let curl_headers := dict_set curl_headers name (HStr value) in
          if verbose then
            (curl_headers,
             {| Logger.out :=
                  Logger.out ls
                  ++ [(name ++ " : " ++ value ++ Logger.default_end)%string];
                Logger.log_entry := Logger.log_entry ls;
                Logger.log_recorder_q := Logger.log_recorder_q ls;
                Logger.log_q := Logger.log_q ls;
                Logger.main_window_q := Logger.main_window_q ls |})
          else (curl_headers, ls)
      | _ => st
      end.

(** [get_headers(url, verbose, http_headers)].  The handle it configures
    is local and only drives the transfer, which is given as [tr]. *)
Definition get_headers (cfg : config) (url : string) (verbose : bool)
  (tr : transfer) (ls : Logger.log_state) : dict * Logger.log_state :=
  let ls :=
    Logger.log cfg ["get_headers()> getting headers for:"; url] 3
      Logger.default_start Logger.default_end Logger.default_sep false ls in
  let curl_headers := [] in
  let '(curl_headers, ls) :=
    fold_left (header_callback verbose) (header_lines tr) (curl_headers, ls) in
  let ls :=
    match failure tr with
    | Some e =>
        if negb (has_text "Failed writing body" e)
        then Logger.log cfg ["get_headers()>"; e] 1
               Logger.default_start Logger.default_end Logger.default_sep
               false ls
        else ls
    | None => ls
    end in
  let curl_headers :=
    dict_set curl_headers "status_code" (HInt (response_code tr)) in
  let curl_headers :=
    dict_set curl_headers "eff_url" (HStr (effective_url tr)) in
  (curl_headers, ls).

(** The logger's state of a fresh process. *)
Definition quiet : Logger.log_state :=
  {| Logger.out := []; Logger.log_entry := EmptyString;
     Logger.log_recorder_q := []; Logger.log_q := [];
     Logger.main_window_q := [] |}.

End Probe.

(* ================================================================== *)
(** ** Sample settings *)
(* ================================================================== *)

(** Settings with a fixed referer, used to evaluate the functions. *)
Definition sample_config : config :=
  {| segment_size := 524288;
     max_connections := 10;
     HEADERS := [("User-Agent", "pyIDM")];
     proxy := "";
     referer_url := "https://example.com/";
     use_cookies := false;
     cookie_file_path := "";
     username := "";
     password := "";
     log_level := 2;
     cacert := "cacert.pem" |}.

(** A name of 258 characters, one of them beyond 65535, whose last ten
    hold forbidden characters. *)
Definition sample_long_name : text :=
  128512 :: repeat 120 250 ++ text_of_string "<1>.mp4".

(** A platform [splitext] cut down to one name, for evaluation. *)
Definition sample_splitext (file_name : string) : string * string :=
  ("a"%string, ".txt"%string).

(** What the [try] ... [except: pass] leaves of a computation. *)
Definition or_none {A : Type} (m : exc (option A)) : option A :=
  match m with
  | Ok r => r
  | Raise _ => None
  end.

(** A folder that holds every numbered name [a_2.txt] to
    [a_999999.txt]. *)
Definition sample_full_folder : list string :=
  map (fun j => numbered_name "a" ".txt" (2 + j)) (range 999998).

(** Three-part version numbers in dictionary order. *)
Definition version_lt (a b : Z * Z * Z) : Prop :=
  let '(a0, a1, a2) := a in
  let '(b0, b1, b2) := b in
  a0 < b0 \/ (a0 = b0 /\ (a1 < b1 \/ (a1 = b1 /\ a2 < b2))).

(* ================================================================== *)
(** ** Notions used in the statements *)
(* ================================================================== *)

(** The [i]-th range of width [w]. *)
Definition full_part (w i : Z) : byte_range := (i * w, i * w + w - 1).

(** Sum of what [get_seg_size] reports for a list of range names. *)
Definition seg_size_sum (names : list string) : Z :=
  fold_right (fun n acc => get_seg_size (PyStr n) + acc) 0 names.

(** [f'{k}:{v}'] for every item of a dict. *)
Definition header_list (d : list (string * string)) : list string :=
  map (fun kv => (fst kv ++ ":" ++ snd kv)%string) d.

(** What the recorder has taken in charge of the encoded text [all]
    enqueued so far: everything while it runs, and a prefix once it has
    stopped. *)
Definition accounted (encodable : ascii -> bool) (w : LogRecorder.world)
  (all : string) : Prop :=
  match LogRecorder.recorder w with
  | LogRecorder.Idle => False
  | LogRecorder.Running _ =>
      (LogRecorder.log_txt w
       ++ LogRecorder.encode encodable (LogRecorder.pending w))%string = all
  | LogRecorder.Stopped | LogRecorder.Died =>
      exists rest, all = (LogRecorder.log_txt w ++ rest)%string
  end.

(** The lines the callback acts on: those that arrive while the
    termination flag is down and that hold a colon. *)
Definition relevant (arrival : bool * string) : bool :=
  (negb (fst arrival) && has_char ":" (snd arrival))%bool.

(** The same transfer with other header lines. *)
Definition with_lines (tr : Probe.transfer) (lines : list (bool * string))
  : Probe.transfer :=
  {| Probe.header_lines := lines; Probe.failure := Probe.failure tr;
     Probe.response_code := Probe.response_code tr;
     Probe.effective_url := Probe.effective_url tr |}.

(* ================================================================== *)
(** ** Printing an integer and reading it back *)
(* ================================================================== *)

Section RoundTrip.

Lemma digits_only_uint (d : Decimal.uint) :
  digits_only (NilEmpty.string_of_uint d) = true.
Proof. induction d; simpl; auto. Qed.

(** A non-negative integer prints as a non-empty run of digits. *)
Lemma str_of_int_digits (z : Z) :
  0 <= z ->
  exists d, str_of_int z = NilEmpty.string_of_uint d
            /\ d <> Decimal.Nil /\ Z.of_uint d = z.
Proof.
  intros Hz. destruct z as [|p|p]; [| |lia].
  - exists (Decimal.D0 Decimal.Nil). repeat split; discriminate.
  - exists (Pos.to_uint p). unfold str_of_int; simpl.
    pose proof (DecimalPos.Unsigned.to_uint_nonnil p) as Hn.
    repeat split; auto.
    + destruct (Pos.to_uint p); [contradiction| reflexivity ..].
    + exact (DecimalZ.of_to (Z.pos p)).
Qed.

Lemma digit_not_space (c : ascii) : is_digit c = true -> is_space c = false.
Proof.
  unfold is_digit, is_space. intros H.
  apply andb_true_iff in H as [H1 H2].
  apply Nat.leb_le in H1. apply Nat.leb_le in H2.
  apply orb_false_iff; split.
  - apply Nat.eqb_neq. lia.
  - apply andb_false_iff. right. apply Nat.leb_gt. lia.
Qed.

Lemma digit_not_char (c x : ascii) :
  is_digit c = true -> is_digit x = false -> Ascii.eqb c x = false.
Proof.
  intros Hc Hx. destruct (Ascii.eqb_spec c x); [congruence | reflexivity].
Qed.

Lemma rstrip_digits (s : string) : digits_only s = true -> rstrip s = s.
Proof.
  induction s as [|c r IH]; simpl; [reflexivity|].
  intros H. apply andb_true_iff in H as [Hc Hr].
  rewrite (IH Hr). destruct r; [|reflexivity].
  now rewrite (digit_not_space c Hc).
Qed.

Lemma strip_digits (s : string) : digits_only s = true -> strip s = s.
Proof.
  intros H. unfold strip.
  replace (lstrip s) with s; [now apply rstrip_digits|].
  destruct s as [|c r]; [reflexivity|]. simpl in *.
  apply andb_true_iff in H as [Hc _].
  now rewrite (digit_not_space c Hc).
Qed.

Lemma int_digits_digits (s : string) (b : bool) :
  digits_only s = true -> (s <> EmptyString \/ b = true) ->
  int_digits b s = Some s.
Proof.
  revert b. induction s as [|c r IH]; simpl; intros b H Hb.
  - destruct Hb as [Hb | ->]; [now elim Hb | reflexivity].
  - apply andb_true_iff in H as [Hc Hr]. rewrite Hc.
    rewrite (IH true Hr); auto.
Qed.

Lemma int_unsigned_uint (d : Decimal.uint) :
  d <> Decimal.Nil ->
  int_unsigned (NilEmpty.string_of_uint d) = Ok (Z.of_uint d).
Proof.
  intros Hd. unfold int_unsigned.
  rewrite int_digits_digits.
  - now rewrite NilEmpty.usu.
  - apply digits_only_uint.
  - left. destruct d; simpl; congruence.
Qed.

(** [int(str(z)) == z] for every non-negative [z]. *)
Lemma int_of_str_of_int (z : Z) : 0 <= z -> int_of_str (str_of_int z) = Ok z.
Proof.
  intros Hz. destruct (str_of_int_digits z Hz) as (d & -> & Hd & <-).
  unfold int_of_str. rewrite strip_digits by apply digits_only_uint.
  rewrite <- (int_unsigned_uint d Hd).
  destruct d; try contradiction; reflexivity.
Qed.

Lemma split_no_sep (sep : ascii) (s : string) :
  (forall c, is_digit c = true -> Ascii.eqb c sep = false) ->
  digits_only s = true -> split sep s = [s].
Proof.
  intros Hsep. induction s as [|c r IH]; simpl; [reflexivity|].
  intros H. apply andb_true_iff in H as [Hc Hr].
  now rewrite (Hsep c Hc), (IH Hr).
Qed.

Lemma split_digits_sep (sep : ascii) (s1 s2 : string) :
  (forall c, is_digit c = true -> Ascii.eqb c sep = false) ->
  digits_only s1 = true -> digits_only s2 = true ->
  split sep (s1 ++ String sep s2)%string = [s1; s2].
Proof.
  intros Hsep H1 H2. induction s1 as [|c r IH]; simpl.
  - now rewrite Ascii.eqb_refl, (split_no_sep sep s2 Hsep H2).
  - simpl in H1. apply andb_true_iff in H1 as [Hc Hr].
    now rewrite (Hsep c Hc), (IH Hr).
Qed.

(** The name [size_splitter] gives a range reads back as that range. *)
Lemma seg_bounds_range_name (x y : Z) :
  0 <= x -> 0 <= y -> seg_bounds (PyStr (range_name x y)) = Ok (x, y).
Proof.
  intros Hx Hy.
  destruct (str_of_int_digits x Hx) as (dx & Ex & _ & _).
  destruct (str_of_int_digits y Hy) as (dy & Ey & _ & _).
  assert (Hsplit : split "-" (range_name x y) = [str_of_int x; str_of_int y]).
  { unfold range_name. simpl append. apply split_digits_sep.
    - intros c Hc. now apply digit_not_char.
    - rewrite Ex. apply digits_only_uint.
    - rewrite Ey. apply digits_only_uint. }
  unfold seg_bounds. simpl. rewrite Hsplit. simpl.
  rewrite (int_of_str_of_int x Hx). simpl.
  now rewrite (int_of_str_of_int y Hy).
Qed.

End RoundTrip.

(* ================================================================== *)
(** ** Chains of ranges *)
(* ================================================================== *)

Section Chains.

Lemma range_succ (k : nat) :
  range (Z.of_nat (S k)) = range (Z.of_nat k) ++ [Z.of_nat k].
Proof.
  unfold range. rewrite !Nat2Z.id, seq_S, map_app. reflexivity.
Qed.

Lemma range_length (k : nat) : List.length (range (Z.of_nat k)) = k.
Proof. unfold range. now rewrite length_map, length_seq, Nat2Z.id. Qed.

Lemma chain_end_snoc (x : Z) (rs : list byte_range) (a b : Z) :
  chain_end x (rs ++ [(a, b)]) = b + 1.
Proof.
  revert x. induction rs as [|[a' b'] t IH]; intros x; simpl; auto.
Qed.

Lemma chained_snoc (x : Z) (rs : list byte_range) (a b : Z) :
  chained x rs -> a = chain_end x rs -> a <= b ->
  chained x (rs ++ [(a, b)]).
Proof.
  revert x. induction rs as [|[a' b'] t IH]; intros x H Ha Hab; simpl in *.
  - auto.
  - destruct H as (E & Hle & Ht). auto.
Qed.


Lemma chained_lower (x : Z) (rs : list byte_range) :
  chained x rs -> Forall (fun r => x <= fst r /\ fst r <= snd r) rs.
Proof.
  revert x. induction rs as [|[a b] t IH]; intros x H; simpl in *;
    constructor.
  - simpl. lia.
  - destruct H as (-> & Hle & Ht).
    eapply Forall_impl; [|exact (IH _ Ht)]. simpl. intros r. lia.
Qed.

Lemma chained_total (x : Z) (rs : list byte_range) :
  chained x rs -> total_len rs = chain_end x rs - x.
Proof.
  revert x. induction rs as [|[a b] t IH]; intros x H; simpl in *; [lia|].
  destruct H as (-> & Hle & Ht). rewrite (IH _ Ht).
  unfold range_len; simpl. lia.
Qed.








Lemma chained_nonneg (x : Z) (rs : list byte_range) :
  0 <= x -> chained x rs -> Forall (fun r => 0 <= fst r /\ 0 <= snd r) rs.
Proof.
  intros Hx H. eapply Forall_impl; [|exact (chained_lower _ _ H)].
  simpl. intros r. lia.
Qed.

Lemma read_ranges_names (rs : list byte_range) :
  Forall (fun r => 0 <= fst r /\ 0 <= snd r) rs ->
  read_ranges (map name_of rs) = Ok rs.
Proof.
  induction 1 as [|[a b] t [Ha Hb] _ IH]; simpl; [reflexivity|].
  unfold name_of at 1; simpl fst; simpl snd.
  rewrite (seg_bounds_range_name a b Ha Hb). simpl. now rewrite IH.
Qed.

End Chains.

(* ================================================================== *)
(** ** The loop of [size_splitter] *)
(* ================================================================== *)

Section SplitterLoop.

(** [span] is the width of a part, [last] the number of the last byte and
    [parts] the number of passes: [last + 1 = parts * span + r] with
    [0 <= r < span]. *)
Variables span last parts r : Z.
Hypothesis span_pos : 1 <= span.
Hypothesis parts_pos : 1 <= parts.
Hypothesis euclid : last + 1 = parts * span + r.
Hypothesis rem_bound : 0 <= r < span.

(** Before the last pass every part has the full width. *)
Lemma splitter_loop_prefix (k : nat) :
  Z.of_nat k <= parts - 1 ->
  exists rs,
    fold_left (splitter_step span last) (range (Z.of_nat k)) (0, [])
    = (Z.of_nat k * span, map name_of rs)
    /\ chained 0 rs /\ chain_end 0 rs = Z.of_nat k * span.
Proof.
  induction k as [|k IH]; intros Hk.
  - exists []. repeat split.
  - destruct IH as (rs & Hfold & Hch & Hend); [lia|].
    rewrite range_succ, fold_left_app, Hfold. simpl fold_left.
    unfold splitter_step.
    replace (last - (Z.of_nat k * span + span - 1) <? span) with false
      by (symmetry; apply Z.ltb_ge; nia).
    exists (rs ++ [(Z.of_nat k * span, Z.of_nat k * span + span - 1)]).
    repeat split.
    + rewrite map_app, Nat2Z.inj_succ. simpl. f_equal. ring.
    + apply chained_snoc; auto; lia.
    + rewrite chain_end_snoc, Nat2Z.inj_succ. ring.
Qed.

(** The last pass ends the list at byte [last]. *)
Lemma splitter_loop_all :
  exists rs,
    snd (fold_left (splitter_step span last) (range parts) (0, []))
    = map name_of rs
    /\ chained 0 rs /\ chain_end 0 rs = last + 1 /\ rs <> []
    /\ Z.of_nat (List.length rs) = parts.
Proof.
  destruct (splitter_loop_prefix (Z.to_nat (parts - 1)))
    as (rs & Hfold & Hch & Hend); [lia|].
  assert (Hlen : List.length rs = Z.to_nat (parts - 1)).
  { apply (f_equal (fun p => List.length (snd p))) in Hfold.
    simpl in Hfold. rewrite length_map in Hfold. rewrite <- Hfold.
    clear. generalize (Z.to_nat (parts - 1)) as k.
    assert (G : forall l st,
               List.length (snd (fold_left (splitter_step span last) l st))
               = (List.length (snd st) + List.length l)%nat).
    { induction l as [|i l IHl]; intros [x res]; simpl; [lia|].
      rewrite IHl. simpl. rewrite length_app. simpl. lia. }
    intros k. rewrite G, range_length. reflexivity. }
  assert (Hr : range parts
               = range (Z.of_nat (Z.to_nat (parts - 1))) ++ [parts - 1]).
  { replace [parts - 1] with [Z.of_nat (Z.to_nat (parts - 1))]
      by (now rewrite Z2Nat.id by lia).
    rewrite <- range_succ. f_equal. lia. }
  rewrite Hr, fold_left_app, Hfold. simpl fold_left.
  unfold splitter_step. rewrite Z2Nat.id in * by lia.
  replace (last - ((parts - 1) * span + span - 1) <? span) with true
    by (symmetry; apply Z.ltb_lt; nia).
  exists (rs ++ [((parts - 1) * span, last)]). simpl snd.
  repeat split.
  - now rewrite map_app.
  - apply chained_snoc; auto; nia.
  - apply chain_end_snoc.
  - intros E. apply app_eq_nil in E as [_ E]. discriminate.
  - rewrite length_app, Hlen. simpl. lia.
Qed.

End SplitterLoop.

(** For a file of at least one byte and a positive part size,
    [size_splitter] returns the names of a chain of ranges from byte [0]
    to byte [size - 1], one per multiple of the span that fits. *)
Lemma size_splitter_chain (size part_size : Z) :
  1 <= size -> 1 <= part_size ->
  exists rs,
    size_splitter size part_size = Ok (map name_of rs)
    /\ chained 0 rs /\ chain_end 0 rs = size /\ rs <> []
    /\ Z.of_nat (List.length rs) = size / Z.min part_size size.
Proof.
  intros Hs Hp. unfold size_splitter.
  replace (size =? 0) with false by (symmetry; apply Z.eqb_neq; lia).
  set (span := if part_size <=? size then part_size else size).
  assert (Hspan : span = Z.min part_size size).
  { unfold span. destruct (Z.leb_spec part_size size); lia. }
  assert (Hs1 : 1 <= span <= size) by lia.
  unfold floordiv.
  replace (span =? 0) with false by (symmetry; apply Z.eqb_neq; lia).
  simpl bind.
  assert (Hq : 1 <= size / span).
  { apply Z.div_le_lower_bound; lia. }
  rewrite Z.max_l by lia.
  destruct (splitter_loop_all span (size - 1) (size / span) (size mod span))
    as (rs & Hfold & Hch & Hend & Hne & Hlen); try lia.
  - pose proof (Z.div_mod size span ltac:(lia)). lia.
  - apply Z.mod_pos_bound. lia.
  - exists rs. rewrite Hfold. repeat split; auto; try lia.
    rewrite <- Hspan. exact Hlen.
Qed.

(* ================================================================== *)
(** ** The loop of [get_range_list] *)
(* ================================================================== *)

Section PlannerLoop.

Variables file_size seg_nums seg_size : Z.
Hypothesis nums_pos : 1 <= seg_nums.
Hypothesis size_pos : 1 <= seg_size.
Hypothesis fits : seg_nums * seg_size <= file_size.


(** The start that pass [k] computes from the state pass [k - 1] left. *)
Lemma planner_next_start (k : nat) (start : Z) :
  (k = 0%nat \/ start = (Z.of_nat k - 1) * seg_size) ->
  (if Z.of_nat k =? 0 then 0 else start + seg_size) = Z.of_nat k * seg_size.
Proof.
  intros [-> | ->]; [reflexivity|].
  destruct (Z.eqb_spec (Z.of_nat k) 0) as [E|E]; [rewrite E|]; ring.
Qed.



End PlannerLoop.


(* ================================================================== *)
(** ** Results on [size_splitter] *)
(* ================================================================== *)





(** C4, as the code has it: [size_splitter(1000, 300)] makes
    [1000 // 300 = 3] parts and the last one absorbs the remainder, so the
    result is the three ranges (0,299), (300,599), (600,999). *)
Theorem size_splitter_1000_300 :
  size_splitter 1000 300 = Ok ["0-299"; "300-599"; "600-999"]
  /\ read_ranges ["0-299"; "300-599"; "600-999"]
     = Ok [(0, 299); (300, 599); (600, 999)].
Proof. split; vm_compute; reflexivity. Qed.

(** C4 fails as stated: the result is not the four ranges of the claim. *)
Lemma split_1000_300_is_not_four_ranges :
  size_splitter 1000 300
  <> Ok ["0-299"; "300-599"; "600-899"; "900-999"].
Proof. vm_compute. discriminate. Qed.

(** C10: a one-byte file gets the single name ['0-0'], the very value
    returned for the empty file, and [get_seg_size] of that name is 0. *)
Theorem size_splitter_one_byte_is_sentinel (part_size : Z) :
  1 <= part_size ->
  size_splitter 1 part_size = Ok ["0-0"]
  /\ size_splitter 0 part_size = Ok ["0-0"]
  /\ get_seg_size (PyStr "0-0") = 0.
Proof.
  intros Hp. split; [|split; reflexivity].
  unfold size_splitter.
  assert (Hspan : (if part_size <=? 1 then part_size else 1) = 1).
  { destruct (Z.leb_spec part_size 1); lia. }
  change (1 =? 0) with false. cbv iota. rewrite Hspan. reflexivity.
Qed.

Lemma size_splitter_one_byte_is_sentinel_witness :
  1 <= 300
  /\ size_splitter 1 300 = Ok ["0-0"]
  /\ size_splitter 0 300 = Ok ["0-0"]
  /\ get_seg_size (PyStr "0-0") = 0.
Proof.
  split; [lia|]. apply (size_splitter_one_byte_is_sentinel 300). lia.
Defined.

(* ================================================================== *)
(** ** Results on [get_seg_size] *)
(* ================================================================== *)

Lemma get_seg_size_parsed (seg : pyval) (a b : Z) :
  seg_bounds seg = Ok (a, b) ->
  get_seg_size seg = if b >? 0 then b - a + 1 else 0.
Proof.
  intros H. unfold get_seg_size, get_seg_size_try. now rewrite H.
Qed.

Lemma get_seg_size_raised (seg : pyval) (e : pyexn) :
  seg_bounds seg = Raise e -> get_seg_size seg = 0.
Proof.
  intros H. unfold get_seg_size, get_seg_size_try. now rewrite H.
Qed.

(** A value that is not text has no usable [split]. *)
Lemma seg_bounds_not_text (seg : pyval) :
  (forall s, seg <> PyStr s) -> exists e, seg_bounds seg = Raise e.
Proof.
  intros H. destruct seg; try (eexists; reflexivity).
  now elim (H s).
Qed.

(** Text without a ['-'] has no second field. *)
Lemma seg_bounds_no_dash (s : string) :
  split "-" s = [s] -> exists e, seg_bounds (PyStr s) = Raise e.
Proof.
  intros H. unfold seg_bounds. simpl. rewrite H. simpl.
  destruct (int_of_str s); simpl; eexists; reflexivity.
Qed.

(** Text whose first or second field is not an integer literal. *)
Lemma seg_bounds_bad_field (s f0 f1 : string) (rest : list string) (e : pyexn) :
  split "-" s = f0 :: f1 :: rest ->
  int_of_str f0 = Raise e \/ int_of_str f1 = Raise e ->
  exists e', seg_bounds (PyStr s) = Raise e'.
Proof.
  intros H Hbad. unfold seg_bounds. simpl. rewrite H. simpl.
  destruct (int_of_str f0) as [a|e0]; simpl; [|eexists; reflexivity].
  destruct Hbad as [Hbad|Hbad]; [discriminate|].
  rewrite Hbad. simpl. eexists; reflexivity.
Qed.

(** C5: for every input [get_seg_size] returns an integer, never an
    exception; it is [end - start + 1] when the two bounds parse and the
    end is positive, and 0 when the end is not positive (the sentinel
    ['0-0']) or when the input is malformed: not text, text without ['-'],
    or text whose first or second field is not an integer.  The range
    200-1000 gives 801, and the name [size_splitter] gives a range gives
    its length. *)
Theorem get_seg_size_spec (seg : pyval) :
  (forall a b, seg_bounds seg = Ok (a, b) -> 0 < b ->
               get_seg_size seg = b - a + 1)
  /\ (forall a b, seg_bounds seg = Ok (a, b) -> b <= 0 -> get_seg_size seg = 0)
  /\ (forall e, get_seg_size_try seg = Raise e -> get_seg_size seg = 0)
  /\ ((forall s, seg <> PyStr s) -> get_seg_size seg = 0)
  /\ (forall s, seg = PyStr s -> split "-" s = [s] -> get_seg_size seg = 0)
  /\ (forall s f0 f1 rest e,
         seg = PyStr s -> split "-" s = f0 :: f1 :: rest ->
         int_of_str f0 = Raise e \/ int_of_str f1 = Raise e ->
         get_seg_size seg = 0)
  /\ (forall x y, 0 <= x -> 0 < y -> seg = PyStr (range_name x y) ->
                  get_seg_size seg = y - x + 1)
  /\ get_seg_size (PyStr "0-0") = 0
  /\ get_seg_size (PyStr "200-1000") = 801.
Proof.
  repeat split.
  - intros a b H Hb. rewrite (get_seg_size_parsed seg a b H).
    destruct (Z.gtb_spec b 0); [reflexivity | lia].
  - intros a b H Hb. rewrite (get_seg_size_parsed seg a b H).
    destruct (Z.gtb_spec b 0); [lia | reflexivity].
  - intros e H. unfold get_seg_size. now rewrite H.
  - intros H. destruct (seg_bounds_not_text seg H) as (e & He).
    exact (get_seg_size_raised seg e He).
  - intros s -> H. destruct (seg_bounds_no_dash s H) as (e & He).
    exact (get_seg_size_raised _ e He).
  - intros s f0 f1 rest e -> H Hbad.
    destruct (seg_bounds_bad_field s f0 f1 rest e H Hbad) as (e' & He).
    exact (get_seg_size_raised _ e' He).
  - intros x y Hx Hy ->.
    rewrite (get_seg_size_parsed _ x y (seg_bounds_range_name x y Hx ltac:(lia))).
    destruct (Z.gtb_spec y 0); [reflexivity | lia].
Qed.

Lemma get_seg_size_spec_witness : get_seg_size (PyStr "200-1000") = 801.
Proof.
  apply (proj1 (get_seg_size_spec (PyStr "200-1000")) 200 1000).
  - reflexivity.
  - lia.
Defined.

(** C6, as the code has it: the result is a non-negative integer for
    every input but the texts whose bounds parse with a positive end and
    a start above [end + 1]; for those it is the negative number
    [end - start + 1]. *)
Theorem get_seg_size_nonneg (seg : pyval) :
  (0 <= get_seg_size seg
   <-> ~ (exists a b, seg_bounds seg = Ok (a, b) /\ 0 < b /\ b + 1 < a))
  /\ (forall a b, seg_bounds seg = Ok (a, b) -> 0 < b -> b + 1 < a ->
                  get_seg_size seg = b - a + 1 /\ get_seg_size seg < 0).
Proof.
  split.
  - destruct (seg_bounds seg) as [[a b]|e] eqn:E.
    + rewrite (get_seg_size_parsed seg a b E). split.
      * intros H (a' & b' & E' & Hb & Hab). injection E' as <- <-.
        destruct (Z.gtb_spec b 0); lia.
      * intros H. destruct (Z.gtb_spec b 0); [|lia].
        destruct (Z_le_gt_dec a (b + 1)); [lia|].
        elim H. exists a, b. repeat split; lia.
    + rewrite (get_seg_size_raised seg e E). split; [|lia].
      intros _ (a & b & E' & _). discriminate.
  - intros a b E Hb Hab. rewrite (get_seg_size_parsed seg a b E).
    destruct (Z.gtb_spec b 0); lia.
Qed.

Lemma get_seg_size_nonneg_witness : 0 <= get_seg_size (PyStr "5-4").
Proof.
  apply (proj1 (get_seg_size_nonneg (PyStr "5-4"))).
  intros (a & b & H & Hb & Hab). vm_compute in H. injection H as <- <-. lia.
Defined.

(** C6 fails as stated: the range 100-50 has the negative size -49. *)
Lemma get_seg_size_100_50_negative :
  get_seg_size (PyStr "100-50") = -49
  /\ ~ 0 <= get_seg_size (PyStr "100-50").
Proof. split; [reflexivity | vm_compute; intros H; now apply H]. Qed.

(* ================================================================== *)
(** ** Results on [get_range_list] *)
(* ================================================================== *)



(* ================================================================== *)
(** ** Results on [set_curl_options] *)
(* ================================================================== *)

Section CurlOptions.

Lemma getopt_setopt_same (c : handle) (o : curlopt) (v : curlval) :
  getopt (setopt c o v) o = Some v.
Proof.
  unfold getopt, setopt. rewrite rev_app_distr. simpl.
  destruct (curlopt_eq_dec o o); [reflexivity | contradiction].
Qed.

Lemma getopt_setopt_other (c : handle) (o o' : curlopt) (v : curlval) :
  o' <> o -> getopt (setopt c o' v) o = getopt c o.
Proof.
  intros H. unfold getopt, setopt. rewrite rev_app_distr. simpl.
  destruct (curlopt_eq_dec o' o); [contradiction | reflexivity].
Qed.

Lemma setopt_app (c d : handle) (o : curlopt) (v : curlval) :
  setopt (c ++ d) o v = c ++ setopt d o v.
Proof. unfold setopt. now rewrite app_assoc. Qed.

(** The calls of one invocation come after those already on the handle. *)
Lemma set_curl_options_appends (cfg : config) (c : handle)
  (http_headers : option (list (string * string))) :
  set_curl_options cfg c http_headers
  = c ++ set_curl_options cfg [] http_headers.
Proof.
  unfold set_curl_options.
  destruct (truthy (referer_url cfg)), (use_cookies cfg),
    (truthy (username cfg) || truthy (password cfg))%bool,
    (log_level cfg >=? 4);
    unfold setopt; simpl; rewrite <- ?app_assoc; reflexivity.
Qed.

End CurlOptions.

Ltac curl_cases cfg :=
  unfold set_curl_options;
  destruct (truthy (referer_url cfg)) eqn:?, (use_cookies cfg),
    (truthy (username cfg) || truthy (password cfg))%bool,
    (log_level cfg >=? 4).

Ltac curl_lookup :=
  repeat first
    [ apply getopt_setopt_same
    | rewrite getopt_setopt_other by discriminate ].

(** C8: every invocation of [set_curl_options] itself sets the proxy to
    [config.proxy] (the empty string included), sets FOLLOWLOCATION to 1
    and sets MAXREDIRS to 10, and these are the values in force on the
    handle afterwards, whatever was set on it before. *)
Theorem set_curl_options_proxy_redirects (cfg : config) (c : handle)
  (http_headers : option (list (string * string))) :
  let calls := set_curl_options cfg [] http_headers in
  let c' := set_curl_options cfg c http_headers in
  c' = c ++ calls
  /\ In (PROXY, VStr (proxy cfg)) calls
  /\ In (FOLLOWLOCATION, VInt 1) calls
  /\ In (MAXREDIRS, VInt 10) calls
  /\ getopt c' PROXY = Some (VStr (proxy cfg))
  /\ getopt c' FOLLOWLOCATION = Some (VInt 1)
  /\ getopt c' MAXREDIRS = Some (VInt 10).
Proof.
  cbv zeta. split; [apply set_curl_options_appends|].
  repeat split.
  - curl_cases cfg; unfold setopt; simpl; tauto.
  - curl_cases cfg; unfold setopt; simpl; tauto.
  - curl_cases cfg; unfold setopt; simpl; tauto.
  - curl_cases cfg; curl_lookup.
  - curl_cases cfg; curl_lookup.
  - curl_cases cfg; curl_lookup.
Qed.

(** The last statement of [set_curl_options] turns AUTOREFERER on in
    every case, and a configured referer is set verbatim. *)
Lemma set_curl_options_autoreferer (cfg : config) (c : handle)
  (http_headers : option (list (string * string))) :
  getopt (set_curl_options cfg c http_headers) AUTOREFERER = Some (VInt 1)
  /\ (truthy (referer_url cfg) = true ->
      getopt (set_curl_options cfg c http_headers) REFERER
      = Some (VStr (referer_url cfg))).
Proof.
  split.
  - curl_cases cfg; curl_lookup.
  - intros H. curl_cases cfg; try discriminate; curl_lookup.
Qed.

(** C7 at settings with a fixed referer: the referer is set verbatim, and
    AUTOREFERER is enabled all the same, by the call that ends the
    function. *)
Theorem set_curl_options_fixed_referer_autoreferer :
  let c := set_curl_options sample_config [] None in
  getopt c REFERER = Some (VStr "https://example.com/")
  /\ getopt c AUTOREFERER = Some (VInt 1)
  /\ last c (HTTPHEADER, VInt 0) = (AUTOREFERER, VInt 1).
Proof. cbv zeta. repeat split. Qed.

(* ================================================================== *)
(** ** Results on [log_recorder] *)
(* ================================================================== *)

Import LogRecorder.

Section Recorder.

Lemma append_assoc (a b c : string) :
  ((a ++ b) ++ c)%string = (a ++ (b ++ c))%string.
Proof. induction a as [|x a IH]; simpl; [reflexivity | now rewrite IH]. Qed.

Lemma append_empty_r (a : string) : (a ++ "")%string = a.
Proof. induction a as [|x a IH]; simpl; [reflexivity | now rewrite IH]. Qed.

Lemma join_app (l1 l2 : list string) :
  join (l1 ++ l2) = (join l1 ++ join l2)%string.
Proof.
  induction l1 as [|s t IH]; simpl; [reflexivity|].
  now rewrite IH, append_assoc.
Qed.

(** Taking as many records as the queue holds empties it, in order. *)
Lemma drain_all (q : list string) (buffer : string) :
  drain (List.length q) q buffer = ([], (buffer ++ join q)%string).
Proof.
  revert buffer. induction q as [|r q IH]; intros buffer; simpl.
  - now rewrite append_empty_r.
  - now rewrite IH, append_assoc.
Qed.

Variable encodable : ascii -> bool.

Lemma encode_app (a b : string) :
  encode encodable (a ++ b)
  = (encode encodable a ++ encode encodable b)%string.
Proof.
  induction a as [|c a IH]; simpl; [reflexivity|].
  destruct (encodable c); simpl; now rewrite IH.
Qed.

(** Text that holds encodable characters only is written as it is. *)
Lemma encode_id (s : string) :
  forall_string encodable s = true -> encode encodable s = s.
Proof.
  induction s as [|c s IH]; simpl; [reflexivity|].
  intros H. apply andb_true_iff in H as [Hc Hs].
  now rewrite Hc, (IH Hs).
Qed.

Lemma run_app (e1 e2 : list event) (w : world) :
  run encodable (e1 ++ e2) w = run encodable e2 (run encodable e1 w).
Proof. apply fold_left_app. Qed.

Lemma run_puts (recs : list string) (w : world) :
  run encodable (map Put recs) w
  = {| log_recorder_q := log_recorder_q w ++ recs; terminate := terminate w;
       log_txt := log_txt w; stdout := stdout w; recorder := recorder w |}.
Proof.
  revert w. induction recs as [|r t IH]; intros w.
  - simpl. rewrite app_nil_r. now destruct w.
  - change (run encodable (map Put (r :: t)) w)
      with (run encodable (map Put t) (step encodable w (Put r))).
    rewrite IH. simpl. now rewrite <- app_assoc.
Qed.

(** A pass that finds the flag raised stops the recorder and touches
    neither the queue nor the file. *)
Lemma iter_terminated (w : world) (buffer : string) (io : io_result) :
  recorder w = Running buffer -> terminate w = true ->
  log_recorder_iter encodable io w = set_recorder w Stopped.
Proof. intros Hr Ht. unfold log_recorder_iter. now rewrite Hr, Ht. Qed.

(** A pass whose write succeeds moves everything pending into the file. *)
Lemma iter_written (w : world) (buffer : string) :
  recorder w = Running buffer -> terminate w = false ->
  log_recorder_iter encodable IoOk w
  = {| log_recorder_q := []; terminate := false;
       log_txt := (log_txt w ++ encode encodable (pending w))%string;
       stdout := stdout w;
       recorder := Running EmptyString |}.
Proof.
  intros Hr Ht. unfold log_recorder_iter, pending.
  rewrite Hr, Ht, drain_all.
  destruct (buffer ++ join (log_recorder_q w))%string eqn:E; simpl.
  - now rewrite append_empty_r.
  - reflexivity.
Qed.

(** A pass in which [open] raises keeps everything pending in the buffer
    and prints the error.  *)
Lemma iter_failed (w : world) (buffer e : string) :
  recorder w = Running buffer -> terminate w = false ->
  Curl.truthy (pending w) = true ->
  log_recorder_iter encodable (IoRaise e) w
  = {| log_recorder_q := []; terminate := false;
       log_txt := log_txt w;
       stdout := stdout w ++ [error_line e];
       recorder := Running (pending w) |}.
Proof.
  intros Hr Ht. unfold log_recorder_iter, pending.
  rewrite Hr, Ht, drain_all. intros ->. reflexivity.
Qed.

(** A pass in which closing the file raises has already emptied the
    buffer: what did not reach the file is gone. *)
Lemma iter_close_failed (w : world) (buffer e : string) (written : nat) :
  recorder w = Running buffer -> terminate w = false ->
  Curl.truthy (pending w) = true ->
  log_recorder_iter encodable (CloseRaise written e) w
  = {| log_recorder_q := []; terminate := false;
       log_txt :=
         (log_txt w ++ substring 0 written (encode encodable (pending w)))%string;
       stdout := stdout w ++ [error_line e];
       recorder := Running EmptyString |}.
Proof.
  intros Hr Ht. unfold log_recorder_iter, pending.
  rewrite Hr, Ht, drain_all. intros ->. reflexivity.
Qed.

(** While the recorder runs, the flag is down and no batch is left half
    on the disk, no text is lost and none is reordered: the file followed
    by what is pending, encoded, is the file and what was pending before,
    followed by the records enqueued since. *)
Lemma working_conserves (evs : list event) :
  working evs ->
  forall (w : world) (buffer : string),
    recorder w = Running buffer -> terminate w = false ->
    let w' := run encodable evs w in
    (exists buffer', recorder w' = Running buffer')
    /\ terminate w' = false
    /\ (log_txt w' ++ encode encodable (pending w'))%string
       = ((log_txt w ++ encode encodable (pending w))
          ++ encode encodable (join (puts evs)))%string.
Proof.
  induction 1 as [|ev evs Hev _ IH]; intros w buffer Hr Ht; cbv zeta.
  - simpl. rewrite append_empty_r. eauto.
  - assert (Hstep :
      (exists b1, recorder (step encodable w ev) = Running b1)
      /\ terminate (step encodable w ev) = false
      /\ (log_txt (step encodable w ev)
          ++ encode encodable (pending (step encodable w ev)))%string
         = ((log_txt w ++ encode encodable (pending w))
            ++ encode encodable (join (puts [ev])))%string).
    { destruct ev as [r| |io|io]; try contradiction.
      - simpl. unfold pending; simpl. rewrite Hr.
        repeat split; eauto.
        rewrite join_app; simpl.
        now rewrite !append_empty_r, append_assoc, <- encode_app,
          append_assoc.
      - simpl puts. simpl join. simpl encode. rewrite append_empty_r.
        destruct io as [|e|n e|n e]; try contradiction.
        + simpl step. rewrite (iter_written w buffer Hr Ht).
          unfold pending at 1; simpl. rewrite append_empty_r. eauto.
        + simpl step. unfold log_recorder_iter, pending.
          rewrite Hr, Ht, drain_all.
          destruct (buffer ++ join (log_recorder_q w))%string eqn:E; simpl;
            rewrite ?append_empty_r; eauto. }
    destruct Hstep as ((b1 & Hr1) & Ht1 & Hc1).
    destruct (IH (step encodable w ev) b1 Hr1 Ht1) as (Hr' & Ht' & Hc').
    change (run encodable (ev :: evs) w)
      with (run encodable evs (step encodable w ev)).
    repeat split; auto.
    rewrite Hc', Hc1, append_assoc. f_equal.
    rewrite <- encode_app. f_equal.
    destruct ev; simpl; rewrite ?append_empty_r; reflexivity.
Qed.

End Recorder.

(** C1, as the code has it: the pass that observes the termination flag
    stops the recorder without draining the queue or writing the buffer,
    so the file keeps what earlier passes wrote.  Records enqueued before
    the flag is raised, before or after the recorder starts, are all in
    the file, in enqueue order and as enqueued but for the characters
    UTF-8 cannot encode, when a pass with a successful write ran after the
    last of them and before the flag was raised, and no pass before it
    failed once the file was open. *)
Theorem log_recorder_stops_without_flush (encodable : ascii -> bool) :
  (forall (w : world) (buffer : string) (io : io_result),
      recorder w = Running buffer -> terminate w = true ->
      let w' := step encodable w (Wake io) in
      recorder w' = Stopped
      /\ log_txt w' = log_txt w
      /\ log_recorder_q w' = log_recorder_q w)
  /\ (forall (w0 : world) (evs : list event) (io : io_result),
         recorder w0 = Idle -> terminate w0 = false -> working evs ->
         let records := log_recorder_q w0 ++ puts evs in
         let w1 :=
           run encodable
               (Start IoOk :: evs ++ [Wake IoOk; SetTerminate]) w0 in
         let w2 := step encodable w1 (Wake io) in
         log_txt w1 = encode encodable (join records)
         /\ recorder w2 = Stopped
         /\ log_txt w2 = encode encodable (join records)
         /\ (forall_string encodable (join records) = true ->
             log_txt w2 = join records)).
Proof.
  split.
  - intros w buffer io Hr Ht. cbv zeta. simpl step.
    rewrite (iter_terminated encodable w buffer io Hr Ht). repeat split.
  - intros w0 evs io Hidle Hflag Hw. cbv zeta.
    change (run encodable
                (Start IoOk :: evs ++ [Wake IoOk; SetTerminate]) w0)
      with (run encodable (evs ++ [Wake IoOk; SetTerminate])
                (log_recorder_start IoOk w0)).
    set (ws := log_recorder_start IoOk w0).
    assert (Hrs : recorder ws = Running EmptyString)
      by (unfold ws, log_recorder_start; now rewrite Hidle).
    assert (Hts : terminate ws = false)
      by (unfold ws, log_recorder_start; now rewrite Hidle).
    assert (Hps : (log_txt ws ++ encode encodable (pending ws))%string
                  = encode encodable (join (log_recorder_q w0))).
    { unfold ws, log_recorder_start, pending. rewrite Hidle. reflexivity. }
    destruct (working_conserves encodable evs Hw ws EmptyString Hrs Hts)
      as ((b & Hr) & Ht & Hc).
    rewrite Hps, <- encode_app, <- join_app in Hc.
    rewrite run_app. set (w := run encodable evs ws) in *.
    change (run encodable [Wake IoOk; SetTerminate] w)
      with (step encodable (log_recorder_iter encodable IoOk w) SetTerminate).
    rewrite (iter_written encodable w b Hr Ht). simpl.
    rewrite Hc. repeat split.
    intros Hall. now apply encode_id.
Qed.

Lemma log_recorder_stops_without_flush_witness :
  log_txt (run all_encodable
               [Start IoOk; log_put ">> start"; Wake (IoRaise "busy");
                log_put ">> done"; Wake IoOk; SetTerminate; Wake IoOk]
               (run all_encodable [log_put ">> early"] (boot "old")))
  = join [(">> early" ++ nl)%string; (">> start" ++ nl)%string;
          (">> done" ++ nl)%string].
Proof.
  destruct (proj2 (log_recorder_stops_without_flush all_encodable)
              (run all_encodable [log_put ">> early"] (boot "old"))
              [log_put ">> start"; Wake (IoRaise "busy"); log_put ">> done"]
              IoOk eq_refl eq_refl)
    as (_ & _ & _ & H).
  - repeat constructor.
  - apply H. reflexivity.
Defined.

(** C1 fails as stated: a record enqueued before the flag is raised, and
    not yet drained, is never written; the pass that observes the flag
    leaves the file empty. *)
Lemma log_recorder_drops_queue_on_terminate :
  recorder (run all_encodable
                [Start IoOk; log_put ">> done"; SetTerminate; Wake IoOk]
                (boot ""))
  = Stopped
  /\ log_txt (run all_encodable
                  [Start IoOk; log_put ">> done"; SetTerminate; Wake IoOk]
                  (boot ""))
     <> join [(">> done" ++ nl)%string].
Proof. split; [reflexivity | vm_compute; discriminate]. Qed.

(** C9 on a write error that surfaces when the file is closed, as it does
    for a batch that fits Python's buffer: the error is printed, but the
    buffer was reset before the [with] block closed the file, so the
    record [>> start] of the failed pass is in neither the file nor the
    buffer, and the next pass, which succeeds, writes [>> done] only. *)
Theorem log_recorder_close_failure_loses_records :
  recorder (run all_encodable
                [Start IoOk; log_put ">> start";
                 Wake (CloseRaise 0 "[Errno 28] No space left on device")]
                (boot ""))
  = Running EmptyString
  /\ stdout (run all_encodable
                 [Start IoOk; log_put ">> start";
                  Wake (CloseRaise 0 "[Errno 28] No space left on device")]
                 (boot ""))
     = ["log_recorder()> error: [Errno 28] No space left on device"%string]
  /\ log_txt (run all_encodable
                  [Start IoOk; log_put ">> start";
                   Wake (CloseRaise 0 "[Errno 28] No space left on device");
                   log_put ">> done"; Wake IoOk]
                  (boot ""))
     = (">> done" ++ nl)%string.
Proof. repeat split. Qed.

(* ================================================================== *)
(** ** The functions on sample inputs *)
(* ================================================================== *)

Example size_splitter_even : size_splitter 900 300 = Ok ["0-299"; "300-599"; "600-899"].
Proof. reflexivity. Qed.

Example size_splitter_small_file : size_splitter 7 300 = Ok ["0-6"].
Proof. reflexivity. Qed.

Example size_splitter_zero_part : size_splitter 10 0 = Raise ZeroDivisionError.
Proof. reflexivity. Qed.

Example get_seg_size_extra_field : get_seg_size (PyStr "1-2-3") = 2.
Proof. reflexivity. Qed.

Example get_seg_size_leading_dash : get_seg_size (PyStr "-1-2") = 0.
Proof. reflexivity. Qed.

Example get_seg_size_pair_value : get_seg_size (PyPair 200 1000) = 0.
Proof. reflexivity. Qed.

Example get_seg_size_none : get_seg_size PyNone = 0.
Proof. reflexivity. Qed.

Example get_range_list_empty_file : get_range_list sample_config 0 = Ok [None].
Proof. reflexivity. Qed.

Example get_range_list_three :
  get_range_list sample_config 2000000
  = Ok [Some (0, 666665); Some (666666, 1333331); Some (1333332, 1999999)].
Proof. reflexivity. Qed.

Example get_range_list_small_file :
  get_range_list sample_config 5 = Ok [Some (0, 4)].
Proof. reflexivity. Qed.

Example log_recorder_two_cycles :
  log_txt (run all_encodable
               [Start IoOk; Put "a"; Wake IoOk; Put "b"; Put "c"; Wake IoOk]
               (boot "stale"))
  = "abc"%string.
Proof. reflexivity. Qed.

Example log_recorder_drops_unencodable :
  log_txt (run but_question_mark [Start IoOk; Put "a?b"; Wake IoOk] (boot ""))
  = "ab"%string.
Proof. reflexivity. Qed.

Example log_recorder_partial_write_repeated :
  log_txt (run all_encodable
               [Start IoOk; Put "abcd"; Wake (WriteRaise 2 "I/O error");
                Wake IoOk] (boot ""))
  = "ababcd"%string.
Proof. reflexivity. Qed.



(* ================================================================== *)
(** ** The parts [size_splitter] and [get_range_list] make *)
(* ================================================================== *)

Section SplitterShape.

Variables span last parts r : Z.
Hypothesis span_pos : 1 <= span.
Hypothesis parts_pos : 1 <= parts.
Hypothesis euclid : last + 1 = parts * span + r.
Hypothesis rem_bound : 0 <= r < span.

Lemma splitter_shape_prefix (k : nat) :
  Z.of_nat k <= parts - 1 ->
  fold_left (splitter_step span last) (range (Z.of_nat k)) (0, [])
  = (Z.of_nat k * span,
     map name_of (map (full_part span) (range (Z.of_nat k)))).
Proof.
  induction k as [|k IH]; intros Hk; [reflexivity|].
  rewrite range_succ, fold_left_app, IH by lia. simpl fold_left.
  unfold splitter_step.
  replace (last - (Z.of_nat k * span + span - 1) <? span) with false
    by (symmetry; apply Z.ltb_ge; nia).
  rewrite !map_app, Nat2Z.inj_succ. simpl. f_equal. ring.
Qed.

Lemma splitter_shape_all :
  snd (fold_left (splitter_step span last) (range parts) (0, []))
  = map name_of (map (full_part span) (range (parts - 1))
                 ++ [((parts - 1) * span, last)]).
Proof.
  assert (Hr : range parts
               = range (Z.of_nat (Z.to_nat (parts - 1)))
                 ++ [Z.of_nat (Z.to_nat (parts - 1))]).
  { rewrite <- range_succ. f_equal. lia. }
  rewrite Hr, fold_left_app, splitter_shape_prefix by lia.
  simpl fold_left. unfold splitter_step. rewrite Z2Nat.id by lia.
  replace (last - ((parts - 1) * span + span - 1) <? span) with true
    by (symmetry; apply Z.ltb_lt; nia).
  simpl snd. now rewrite !map_app.
Qed.

End SplitterShape.

Lemma size_splitter_shape (size part_size : Z) :
  1 <= size -> 1 <= part_size ->
  size_splitter size part_size
  = Ok (map name_of
          (map (full_part (Z.min part_size size))
               (range (size / Z.min part_size size - 1))
           ++ [((size / Z.min part_size size - 1) * Z.min part_size size,
                size - 1)])).
Proof.
  intros Hs Hp. unfold size_splitter.
  replace (size =? 0) with false by (symmetry; apply Z.eqb_neq; lia).
  replace (if part_size <=? size then part_size else size)
    with (Z.min part_size size)
    by (destruct (Z.leb_spec part_size size); lia).
  set (span := Z.min part_size size).
  assert (Hs1 : 1 <= span <= size) by lia.
  unfold floordiv.
  replace (span =? 0) with false by (symmetry; apply Z.eqb_neq; lia).
  simpl bind.
  assert (Hq : 1 <= size / span) by (apply Z.div_le_lower_bound; lia).
  rewrite Z.max_l by lia. f_equal.
  apply (splitter_shape_all span (size - 1) (size / span) (size mod span));
    try lia.
  - pose proof (Z.div_mod size span ltac:(lia)). lia.
  - apply Z.mod_pos_bound. lia.
Qed.

Lemma full_parts_len (w n : Z) :
  Forall (fun p => range_len p = w) (map (full_part w) (range n)).
Proof.
  apply Forall_forall. intros p Hin. apply in_map_iff in Hin as (i & <- & _).
  unfold range_len, full_part; simpl. lia.
Qed.

Lemma range_len_Z (n : Z) : 0 <= n -> Z.of_nat (List.length (range n)) = n.
Proof.
  intros Hn. unfold range. rewrite length_map, length_seq. lia.
Qed.

(** X1: for a file of at least one byte and a part size of at least one,
    with [span = min (part_size, size)], [size_splitter] makes
    [size // span] ranges; all but the last hold exactly [span] bytes and
    the last one holds [span + size mod span] bytes, up to byte
    [size - 1]. *)
Theorem size_splitter_part_sizes (size part_size : Z) :
  1 <= size -> 1 <= part_size ->
  let span := Z.min part_size size in
  exists front last_part,
    size_splitter size part_size = Ok (map name_of (front ++ [last_part]))
    /\ Z.of_nat (List.length (front ++ [last_part])) = size / span
    /\ Forall (fun p => range_len p = span) front
    /\ range_len last_part = span + size mod span
    /\ snd last_part = size - 1.
Proof.
  intros Hs Hp span.
  assert (Hq : 1 <= size / span) by (apply Z.div_le_lower_bound; lia).
  exists (map (full_part span) (range (size / span - 1))),
         ((size / span - 1) * span, size - 1).
  split; [apply size_splitter_shape; lia|].
  split; [rewrite length_app, length_map; simpl;
          pose proof (range_len_Z (size / span - 1) ltac:(lia)); lia|].
  split; [apply full_parts_len|].
  split; [|reflexivity].
  unfold range_len; simpl.
  pose proof (Z.div_mod size span ltac:(lia)). lia.
Qed.

Lemma size_splitter_part_sizes_witness :
  1 <= 1000 /\ 1 <= 300 /\
  exists front last_part,
    size_splitter 1000 300 = Ok (map name_of (front ++ [last_part]))
    /\ Z.of_nat (List.length (front ++ [last_part])) = 1000 / Z.min 300 1000
    /\ Forall (fun p => range_len p = Z.min 300 1000) front
    /\ range_len last_part = Z.min 300 1000 + 1000 mod Z.min 300 1000
    /\ snd last_part = 1000 - 1.
Proof.
  split; [lia|]. split; [lia|].
  apply (size_splitter_part_sizes 1000 300); lia.
Defined.

(** X2: a part size of zero makes [size_splitter] raise
    [ZeroDivisionError] for every file of at least one byte. *)
Theorem size_splitter_zero_part_size (size : Z) :
  1 <= size -> size_splitter size 0 = Raise ZeroDivisionError.
Proof.
  intros Hs. unfold size_splitter.
  replace (size =? 0) with false by (symmetry; apply Z.eqb_neq; lia).
  replace (0 <=? size) with true by (symmetry; apply Z.leb_le; lia).
  reflexivity.
Qed.

Lemma size_splitter_zero_part_size_witness :
  1 <= 1000 /\ size_splitter 1000 0 = Raise ZeroDivisionError.
Proof.
  split; [lia|]. apply (size_splitter_zero_part_size 1000). lia.
Defined.

Lemma get_seg_size_name (a b : Z) :
  0 <= a -> 0 <= b ->
  get_seg_size (PyStr (name_of (a, b))) = if b >? 0 then b - a + 1 else 0.
Proof.
  intros Ha Hb. apply get_seg_size_parsed.
  exact (seg_bounds_range_name a b Ha Hb).
Qed.

(** Past byte 0 every range of a chain is counted in full. *)
Lemma seg_size_sum_chain_pos (x : Z) (rs : list byte_range) :
  1 <= x -> chained x rs -> seg_size_sum (map name_of rs) = total_len rs.
Proof.
  revert x. induction rs as [|[a b] t IH]; intros x Hx H; [reflexivity|].
  destruct H as (-> & Hle & Ht). simpl.
  rewrite (get_seg_size_name x b) by lia.
  rewrite (IH (b + 1)) by (auto; lia).
  unfold range_len; simpl. destruct (Z.gtb_spec b 0); lia.
Qed.

(** From byte 0 the first range is counted as empty when it is (0,0). *)
Lemma seg_size_sum_chain_zero (rs : list byte_range) :
  chained 0 rs ->
  seg_size_sum (map name_of rs)
  = total_len rs - match rs with
                   | (_, 0) :: _ => 1
                   | _ => 0
                   end.
Proof.
  destruct rs as [|[a b] t]; [reflexivity|].
  intros (-> & Hle & Ht). simpl.
  rewrite (get_seg_size_name 0 b) by lia.
  rewrite (seg_size_sum_chain_pos (b + 1) t) by (auto; lia).
  unfold range_len; simpl.
  destruct (Z.gtb_spec b 0); destruct b as [|p|p]; lia.
Qed.

Lemma names_inj (rs rs' : list byte_range) :
  map name_of rs = map name_of rs' ->
  Forall (fun p => 0 <= fst p /\ 0 <= snd p) rs ->
  Forall (fun p => 0 <= fst p /\ 0 <= snd p) rs' ->
  rs = rs'.
Proof.
  intros E H H'. apply (f_equal read_ranges) in E.
  rewrite !read_ranges_names in E by assumption. now injection E.
Qed.

Lemma range_head (n : Z) : 1 <= n -> exists t, range n = 0 :: t.
Proof.
  intros Hn. unfold range.
  replace (Z.to_nat n) with (S (Z.to_nat (n - 1))) by lia.
  simpl. eauto.
Qed.

(** X3: adding up [get_seg_size] over the names [size_splitter] returns
    gives the file size, except that a first range 0-0 counts for nothing:
    when the span is one byte the sum is [size - 1]. *)
Theorem seg_sizes_of_split (size part_size : Z) :
  1 <= size -> 1 <= part_size ->
  exists names,
    size_splitter size part_size = Ok names
    /\ seg_size_sum names
       = if Z.min part_size size =? 1 then size - 1 else size.
Proof.
  intros Hs Hp. set (span := Z.min part_size size).
  assert (Hs1 : 1 <= span <= size) by lia.
  assert (Hq : 1 <= size / span) by (apply Z.div_le_lower_bound; lia).
  destruct (size_splitter_chain size part_size Hs Hp)
    as (rs & Hres & Hch & Hend & Hne & _).
  exists (map name_of rs). split; [exact Hres|].
  rewrite (seg_size_sum_chain_zero rs Hch), (chained_total _ _ Hch), Hend.
  assert (Hfirst : exists b t, rs = (0, b) :: t
                               /\ (b = 0 <-> span = 1)).
  { pose proof (size_splitter_shape size part_size Hs Hp) as Hshape.
    fold span in Hshape. rewrite Hres in Hshape. injection Hshape as Hshape.
    apply names_inj in Hshape.
    - destruct (Z.eq_dec (size / span) 1) as [E|E].
      + rewrite E in Hshape. change (range (1 - 1)) with (@nil Z) in Hshape.
        exists (size - 1), []. split; [exact Hshape|].
        pose proof (Z.div_mod size span ltac:(lia)).
        pose proof (Z.mod_pos_bound size span ltac:(lia)). nia.
      + destruct (range_head (size / span - 1) ltac:(lia)) as (t & Ht).
        rewrite Ht in Hshape. simpl in Hshape.
        eexists _, _. split; [exact Hshape|]. lia.
    - now apply chained_nonneg with (x := 0).
    - apply Forall_app. split.
      + apply Forall_forall. intros p Hin.
        apply in_map_iff in Hin as (i & <- & Hi).
        apply in_map_iff in Hi as (n & <- & _).
        unfold full_part; simpl. nia.
      + constructor; [simpl; nia | constructor]. }
  destruct Hfirst as (b & t & -> & Hb).
  destruct (Z.eqb_spec span 1) as [E|E].
  - apply Hb in E. subst b. lia.
  - destruct b as [|p|p]; lia.
Qed.

Lemma seg_sizes_of_split_witness :
  1 <= 3 /\ 1 <= 1 /\
  exists names,
    size_splitter 3 1 = Ok names
    /\ seg_size_sum names = if Z.min 1 3 =? 1 then 3 - 1 else 3.
Proof.
  split; [lia|]. split; [lia|]. apply (seg_sizes_of_split 3 1); lia.
Defined.

Section PlannerShape.

Variables file_size seg_nums seg_size : Z.
Hypothesis nums_pos : 1 <= seg_nums.

Lemma planner_shape_prefix (k : nat) :
  Z.of_nat k <= seg_nums - 1 ->
  exists start end_,
    fold_left (range_list_step file_size seg_nums seg_size)
              (range (Z.of_nat k)) (0, 0, [])
    = (start, end_, map Some (map (full_part seg_size) (range (Z.of_nat k))))
    /\ (k = 0%nat \/ start = (Z.of_nat k - 1) * seg_size).
Proof.
  induction k as [|k IH]; intros Hk.
  - exists 0, 0. split; [reflexivity | now left].
  - destruct IH as (start & end_ & Hfold & Hst); [lia|].
    rewrite range_succ, fold_left_app, Hfold. simpl fold_left.
    unfold range_list_step.
    rewrite (planner_next_start seg_size k start Hst).
    replace (Z.of_nat k <? seg_nums - 1) with true
      by (symmetry; apply Z.ltb_lt; lia).
    eexists _, _. split.
    + rewrite !map_app. reflexivity.
    + right. rewrite Nat2Z.inj_succ. f_equal. lia.
Qed.

Lemma planner_shape_all :
  snd (fold_left (range_list_step file_size seg_nums seg_size)
                 (range seg_nums) (0, 0, []))
  = map Some (map (full_part seg_size) (range (seg_nums - 1))
              ++ [((seg_nums - 1) * seg_size, file_size - 1)]).
Proof.
  destruct (planner_shape_prefix (Z.to_nat (seg_nums - 1)))
    as (start & end_ & Hfold & Hst); [lia|].
  assert (Hr : range seg_nums
               = range (Z.of_nat (Z.to_nat (seg_nums - 1)))
                 ++ [Z.of_nat (Z.to_nat (seg_nums - 1))]).
  { rewrite <- range_succ. f_equal. lia. }
  rewrite Hr, fold_left_app, Hfold. simpl fold_left.
  unfold range_list_step.
  rewrite (planner_next_start seg_size _ start Hst).
  rewrite Z2Nat.id by lia.
  replace (seg_nums - 1 <? seg_nums - 1) with false
    by (symmetry; apply Z.ltb_irrefl).
  simpl snd. now rewrite !map_app.
Qed.

End PlannerShape.

(** X4: with [n = min (max (file_size // segment_size, 1),
    max_connections)] and [w = file_size // n], [get_range_list] returns
    [n - 1] ranges of exactly [w] bytes followed by one range of
    [w + file_size mod n] bytes that ends at byte [file_size - 1]. *)
Theorem get_range_list_part_sizes (cfg : config) (file_size : Z) :
  1 <= file_size -> 1 <= segment_size cfg -> 1 <= max_connections cfg ->
  let n := Z.min (Z.max (file_size / segment_size cfg) 1)
                 (max_connections cfg) in
  let w := file_size / n in
  exists front last_part,
    get_range_list cfg file_size = Ok (map Some (front ++ [last_part]))
    /\ front = map (full_part w) (range (n - 1))
    /\ last_part = ((n - 1) * w, file_size - 1)
    /\ Forall (fun p => range_len p = w) front
    /\ range_len last_part = w + file_size mod n.
Proof.
  intros Hf Hs Hc n w.
  assert (Hq : 0 <= file_size / segment_size cfg) by (apply Z.div_pos; lia).
  assert (Hn : 1 <= n) by lia.
  eexists _, _. split; [|split; [reflexivity|split; [reflexivity|split]]].
  - unfold get_range_list, floordiv.
    replace (file_size =? 0) with false by (symmetry; apply Z.eqb_neq; lia).
    replace (segment_size cfg =? 0) with false
      by (symmetry; apply Z.eqb_neq; lia).
    simpl bind.
    replace (int_or (file_size / segment_size cfg) 1)
      with (Z.max (file_size / segment_size cfg) 1)
      by (unfold int_or;
          destruct (Z.eqb_spec (file_size / segment_size cfg) 0); lia).
    fold n. replace (n =? 0) with false by (symmetry; apply Z.eqb_neq; lia).
    simpl bind. fold w. f_equal. apply planner_shape_all. exact Hn.
  - apply full_parts_len.
  - unfold range_len; simpl.
    pose proof (Z.div_mod file_size n ltac:(lia)). fold w in H. lia.
Qed.

Lemma get_range_list_part_sizes_witness :
  1 <= 2000000
  /\ 1 <= segment_size sample_config
  /\ 1 <= max_connections sample_config
  /\ exists front last_part,
       get_range_list sample_config 2000000
       = Ok (map Some (front ++ [last_part]))
       /\ front = map (full_part 666666) (range (3 - 1))
       /\ last_part = ((3 - 1) * 666666, 2000000 - 1)
       /\ Forall (fun p => range_len p = 666666) front
       /\ range_len last_part = 666666 + 2000000 mod 3.
Proof.
  split; [lia|]. split; [simpl; lia|]. split; [simpl; lia|].
  apply (get_range_list_part_sizes sample_config 2000000); simpl; lia.
Defined.

(** X5: the settings [get_range_list] cannot plan with.  A segment size
    of zero raises [ZeroDivisionError] for every non-empty file; with a
    positive segment size, a connection cap of zero raises
    [ZeroDivisionError] and a negative cap gives the empty list; the
    empty file gets [[None]] whatever the settings. *)
Theorem get_range_list_bad_settings (cfg : config) (file_size : Z) :
  (file_size = 0 -> get_range_list cfg file_size = Ok [None])
  /\ (file_size <> 0 -> segment_size cfg = 0 ->
      get_range_list cfg file_size = Raise ZeroDivisionError)
  /\ (1 <= file_size -> 1 <= segment_size cfg -> max_connections cfg = 0 ->
      get_range_list cfg file_size = Raise ZeroDivisionError)
  /\ (1 <= file_size -> 1 <= segment_size cfg -> max_connections cfg < 0 ->
      get_range_list cfg file_size = Ok []).
Proof.
  repeat split.
  - intros ->. reflexivity.
  - intros Hf Hs. unfold get_range_list, floordiv.
    replace (file_size =? 0) with false by (symmetry; apply Z.eqb_neq; lia).
    now rewrite Hs.
  - intros Hf Hs Hc. unfold get_range_list, floordiv.
    replace (file_size =? 0) with false by (symmetry; apply Z.eqb_neq; lia).
    replace (segment_size cfg =? 0) with false
      by (symmetry; apply Z.eqb_neq; lia).
    simpl bind. rewrite Hc.
    assert (Hq : 0 <= file_size / segment_size cfg) by (apply Z.div_pos; lia).
    replace (Z.min (int_or (file_size / segment_size cfg) 1) 0) with 0
      by (unfold int_or;
          destruct (Z.eqb_spec (file_size / segment_size cfg) 0); lia).
    reflexivity.
  - intros Hf Hs Hc. unfold get_range_list, floordiv.
    replace (file_size =? 0) with false by (symmetry; apply Z.eqb_neq; lia).
    replace (segment_size cfg =? 0) with false
      by (symmetry; apply Z.eqb_neq; lia).
    simpl bind.
    assert (Hq : 0 <= file_size / segment_size cfg) by (apply Z.div_pos; lia).
    replace (Z.min (int_or (file_size / segment_size cfg) 1)
                   (max_connections cfg))
      with (max_connections cfg)
      by (unfold int_or;
          destruct (Z.eqb_spec (file_size / segment_size cfg) 0); lia).
    replace (max_connections cfg =? 0) with false
      by (symmetry; apply Z.eqb_neq; lia).
    simpl bind. unfold range.
    replace (Z.to_nat (max_connections cfg)) with 0%nat by lia.
    reflexivity.
Qed.

Lemma get_range_list_bad_settings_witness :
  get_range_list
    {| segment_size := 524288; max_connections := 0; HEADERS := [];
       proxy := ""; referer_url := ""; use_cookies := false;
       cookie_file_path := ""; username := ""; password := "";
       log_level := 2; cacert := "" |} 1000
  = Raise ZeroDivisionError.
Proof.
  apply (proj1 (proj2 (proj2 (get_range_list_bad_settings _ 1000))));
    simpl; lia.
Defined.

(* ================================================================== *)
(** ** More on [set_curl_options] *)
(* ================================================================== *)

Lemma getopt_from_app (c d : handle) (o : curlopt) :
  getopt_from (c ++ d) o
  = match getopt_from c o with
    | Some v => Some v
    | None => getopt_from d o
    end.
Proof.
  induction c as [|[o' v] t IH]; simpl; [reflexivity|].
  destruct (curlopt_eq_dec o' o); [reflexivity | exact IH].
Qed.

(** Later calls win over earlier ones. *)
Lemma getopt_app (c d : handle) (o : curlopt) :
  getopt (c ++ d) o
  = match getopt d o with
    | Some v => Some v
    | None => getopt c o
    end.
Proof. unfold getopt. rewrite rev_app_distr. apply getopt_from_app. Qed.

(** X6: configuring a handle twice with the same settings leaves every
    option as one configuration does. *)
Theorem set_curl_options_twice (cfg : config) (c : handle)
  (http_headers : option (list (string * string))) (o : curlopt) :
  getopt (set_curl_options cfg (set_curl_options cfg c http_headers)
                           http_headers) o
  = getopt (set_curl_options cfg c http_headers) o.
Proof.
  rewrite (set_curl_options_appends cfg (set_curl_options cfg c http_headers)).
  rewrite (set_curl_options_appends cfg c).
  rewrite !getopt_app.
  destruct (getopt (set_curl_options cfg [] http_headers) o); reflexivity.
Qed.

(** X7: the headers sent are those passed to the call when it is given a
    non-empty dict, with nothing of the default headers merged in;
    without a dict, or with an empty one, they are [config.HEADERS]. *)
Theorem set_curl_options_headers (cfg : config) (c : handle)
  (http_headers : option (list (string * string))) :
  getopt (set_curl_options cfg c http_headers) HTTPHEADER
  = Some (VList (header_list
                   match http_headers with
                   | Some (kv :: rest) => kv :: rest
                   | Some [] | None => HEADERS cfg
                   end)).
Proof.
  destruct http_headers as [[|kv rest]|]; curl_cases cfg; curl_lookup.
Qed.

(** X8: the options that do not depend on the settings, as in force after
    every call: no signals, no progress meter, the certificate bundle for
    the server and for the proxy, a connect timeout of 10 s, abort under
    1024 bytes/s for 10 s, headers kept out of the body, and a total
    timeout of 300 s. *)
Theorem set_curl_options_fixed (cfg : config) (c : handle)
  (http_headers : option (list (string * string))) :
  let c' := set_curl_options cfg c http_headers in
  getopt c' NOSIGNAL = Some (VInt 1)
  /\ getopt c' NOPROGRESS = Some (VInt 1)
  /\ getopt c' CAINFO = Some (VStr (cacert cfg))
  /\ getopt c' PROXY_CAINFO = Some (VStr (cacert cfg))
  /\ getopt c' CONNECTTIMEOUT = Some (VInt 10)
  /\ getopt c' LOW_SPEED_LIMIT = Some (VInt 1024)
  /\ getopt c' LOW_SPEED_TIME = Some (VInt 10)
  /\ getopt c' HEADEROPT = Some (VInt 0)
  /\ getopt c' TIMEOUT = Some (VInt 300).
Proof.
  cbv zeta. repeat split; curl_cases cfg; curl_lookup.
Qed.

(** X9: the options that depend on the settings.  The cookie file is set
    when cookies are in use and otherwise left as the handle had it; the
    user name and the password are set together, to the configured values,
    when either is non-empty, and otherwise left as they were; VERBOSE is
    1 from log level 4 on and 0 below. *)
Theorem set_curl_options_conditional (cfg : config) (c : handle)
  (http_headers : option (list (string * string))) :
  let c' := set_curl_options cfg c http_headers in
  getopt c' COOKIEFILE
  = (if use_cookies cfg then Some (VStr (cookie_file_path cfg))
     else getopt c COOKIEFILE)
  /\ getopt c' USERNAME
     = (if (truthy (username cfg) || truthy (password cfg))%bool
        then Some (VStr (username cfg)) else getopt c USERNAME)
  /\ getopt c' PASSWORD
     = (if (truthy (username cfg) || truthy (password cfg))%bool
        then Some (VStr (password cfg)) else getopt c PASSWORD)
  /\ getopt c' VERBOSE = Some (VInt (if log_level cfg >=? 4 then 1 else 0)).
Proof.
  cbv zeta. repeat split; curl_cases cfg; curl_lookup; reflexivity.
Qed.

(* ================================================================== *)
(** ** More on [log_recorder] *)
(* ================================================================== *)

Section RecorderTraces.

Variable encodable : ascii -> bool.

Lemma accounted_step (w : world) (all : string) (ev : event) :
  match ev with Wake io => whole_pass io | _ => True end ->
  accounted encodable w all ->
  accounted encodable (step encodable w ev)
            (all ++ encode encodable (join (puts [ev]))).
Proof.
  intros Hev. unfold accounted.
  destruct (recorder w) as [|buffer| |] eqn:Hr; [contradiction| | |].
  - intros <-. destruct ev as [r| |io|io]; simpl.
    + rewrite Hr. unfold pending; simpl. rewrite Hr.
      rewrite join_app; simpl.
      now rewrite !append_empty_r, append_assoc, <- encode_app,
        append_assoc.
    + rewrite Hr. unfold pending; simpl. rewrite Hr.
      now rewrite append_empty_r.
    + unfold log_recorder_start. rewrite Hr, Hr. now rewrite append_empty_r.
    + rewrite append_empty_r. unfold log_recorder_iter. rewrite Hr.
      destruct (terminate w) eqn:Ht.
      * simpl. eauto.
      * unfold pending at 2. rewrite Hr, drain_all.
        destruct io as [|e|n e|n e]; try contradiction;
          destruct (buffer ++ join (log_recorder_q w))%string eqn:E;
          simpl; unfold pending; simpl;
          rewrite ?append_empty_r; reflexivity.
  - intros (rest & ->).
    assert (Hsame : recorder (step encodable w ev) = Stopped
                    /\ log_txt (step encodable w ev) = log_txt w).
    { destruct ev; simpl; unfold log_recorder_start, log_recorder_iter;
        rewrite ?Hr; auto. }
    destruct Hsame as (-> & ->).
    exists (rest ++ encode encodable (join (puts [ev])))%string.
    now rewrite append_assoc.
  - intros (rest & ->).
    assert (Hsame : recorder (step encodable w ev) = Died
                    /\ log_txt (step encodable w ev) = log_txt w).
    { destruct ev; simpl; unfold log_recorder_start, log_recorder_iter;
        rewrite ?Hr; auto. }
    destruct Hsame as (-> & ->).
    exists (rest ++ encode encodable (join (puts [ev])))%string.
    now rewrite append_assoc.
Qed.

Lemma puts_app (e1 e2 : list event) : puts (e1 ++ e2) = puts e1 ++ puts e2.
Proof.
  induction e1 as [|ev t IH]; simpl; [reflexivity|].
  destruct ev; simpl; now rewrite IH.
Qed.

Lemma accounted_run (evs : list event) (w : world) (all : string) :
  clean evs -> accounted encodable w all ->
  accounted encodable (run encodable evs w)
            (all ++ encode encodable (join (puts evs))).
Proof.
  intros Hc. revert w all.
  induction Hc as [|ev t Hev _ IH]; intros w all H.
  - simpl. now rewrite append_empty_r.
  - change (run encodable (ev :: t) w)
      with (run encodable t (step encodable w ev)).
    change (ev :: t) with ([ev] ++ t).
    rewrite puts_app, join_app, encode_app, <- append_assoc.
    apply IH. now apply accounted_step.
Qed.

Lemma step_final (w : world) (ev : event) :
  recorder w = Stopped \/ recorder w = Died ->
  recorder (step encodable w ev) = recorder w
  /\ log_txt (step encodable w ev) = log_txt w
  /\ stdout (step encodable w ev) = stdout w.
Proof.
  intros [Hr|Hr]; destruct ev; simpl;
    unfold log_recorder_start, log_recorder_iter; rewrite ?Hr; auto.
Qed.

End RecorderTraces.

(** X10: once the recorder has started, whatever happens next (records
    enqueued, the flag raised at any time, passes that write or in which
    [open] raises), and as long as no pass fails after it has opened the
    file, the file is a prefix of the records enqueued, in enqueue order
    and encoded: no record is written twice or out of order, and only the
    characters UTF-8 cannot encode are missing. *)
Theorem log_file_is_prefix_of_records (encodable : ascii -> bool)
  (w0 : world) (evs : list event) :
  recorder w0 = Idle -> clean evs ->
  exists rest,
    encode encodable (join (log_recorder_q w0 ++ puts evs))
    = (log_txt (run encodable evs (log_recorder_start IoOk w0))
       ++ rest)%string.
Proof.
  intros Hidle Hc.
  assert (H0 : accounted encodable (log_recorder_start IoOk w0)
                 (encode encodable (join (log_recorder_q w0)))).
  { unfold accounted, log_recorder_start, pending. rewrite Hidle.
    reflexivity. }
  pose proof (accounted_run encodable evs _ _ Hc H0) as H.
  rewrite <- encode_app, <- join_app in H. unfold accounted in H.
  destruct (recorder (run encodable evs (log_recorder_start IoOk w0)));
    [contradiction | eauto | exact H | exact H].
Qed.

Lemma log_file_is_prefix_of_records_witness :
  exists rest,
    encode but_question_mark
           (join (log_recorder_q (boot "old")
                  ++ puts [Put "a?b"; Wake IoOk; Put "c"; SetTerminate;
                           Put "d"; Wake IoOk]))
    = (log_txt (run but_question_mark
                    [Put "a?b"; Wake IoOk; Put "c"; SetTerminate;
                     Put "d"; Wake IoOk]
                    (log_recorder_start IoOk (boot "old")))
       ++ rest)%string.
Proof.
  apply (log_file_is_prefix_of_records but_question_mark (boot "old")
           [Put "a?b"; Wake IoOk; Put "c"; SetTerminate; Put "d"; Wake IoOk]).
  - reflexivity.
  - repeat constructor.
Defined.

(** X11: a recorder that has stopped, or that died because the log file
    could not be opened at start, never writes or prints again; in
    particular after a failed start the old file is left as it was,
    whatever is logged. *)
Theorem log_recorder_final (encodable : ascii -> bool)
  (w : world) (evs : list event) :
  recorder w = Stopped \/ recorder w = Died ->
  recorder (run encodable evs w) = recorder w
  /\ log_txt (run encodable evs w) = log_txt w
  /\ stdout (run encodable evs w) = stdout w.
Proof.
  revert w. induction evs as [|ev t IH]; intros w Hr; [auto|].
  change (run encodable (ev :: t) w)
    with (run encodable t (step encodable w ev)).
  destruct (step_final encodable w ev Hr) as (H1 & H2 & H3).
  destruct (IH (step encodable w ev)) as (H1' & H2' & H3').
  - now rewrite H1.
  - rewrite H1', H2', H3'. auto.
Qed.

Lemma log_recorder_final_witness :
  log_txt (run all_encodable
               [log_put ">> a"; Wake IoOk; SetTerminate; Wake IoOk]
               (log_recorder_start (IoRaise "denied") (boot "old")))
  = "old"%string.
Proof.
  apply (log_recorder_final all_encodable
           (log_recorder_start (IoRaise "denied") (boot "old"))
           [log_put ">> a"; Wake IoOk; SetTerminate; Wake IoOk]).
  right. reflexivity.
Defined.

(** X12: a pass takes the records counted by [q.qsize()] when it begins
    and no more: records that arrive behind them stay in the queue, in
    order, for the next pass. *)
Theorem drain_snapshot (q later : list string) (buffer : string) :
  drain (List.length q) (q ++ later) buffer
  = (later, (buffer ++ join q)%string).
Proof.
  revert buffer. induction q as [|r q IH]; intros buffer; simpl.
  - rewrite append_empty_r. now destruct later.
  - now rewrite IH, append_assoc.
Qed.

(** X29: when [open] raises in a pass, the error is printed, the file is
    unchanged and the whole buffer stays in memory; the next pass whose
    write succeeds appends that buffer, followed by the records enqueued
    in between. *)
Theorem log_recorder_retries_failed_open (encodable : ascii -> bool)
  (w : world) (buffer e : string) (later : list string) :
  recorder w = Running buffer -> terminate w = false ->
  Curl.truthy (pending w) = true ->
  let w1 := step encodable w (Wake (IoRaise e)) in
  let w2 := run encodable (map Put later ++ [Wake IoOk]) w1 in
  stdout w1 = stdout w ++ [error_line e]
  /\ log_txt w1 = log_txt w
  /\ recorder w1 = Running (buffer ++ join (log_recorder_q w))%string
  /\ log_txt w2
     = (log_txt w
        ++ encode encodable
             ((buffer ++ join (log_recorder_q w)) ++ join later))%string
  /\ recorder w2 = Running EmptyString
  /\ log_recorder_q w2 = [].
Proof.
  intros Hr Ht Hp. cbv zeta. simpl step.
  rewrite (iter_failed encodable w buffer e Hr Ht Hp), run_app, run_puts.
  simpl.
  match goal with
  | |- context [log_recorder_iter encodable IoOk ?x] =>
      rewrite (iter_written encodable x (pending w) eq_refl eq_refl)
  end.
  unfold pending; rewrite Hr; simpl.
  repeat split.
Qed.

Lemma log_recorder_retries_failed_open_witness :
  stdout (run all_encodable
              [Start IoOk; log_put ">> start"; Wake (IoRaise "denied")]
              (boot ""))
  = ["log_recorder()> error: denied"%string]
  /\ log_txt (run all_encodable
                  [Start IoOk; log_put ">> start"; Wake (IoRaise "denied")]
                  (boot ""))
     = ""%string
  /\ log_txt (run all_encodable
                  [Start IoOk; log_put ">> start"; Wake (IoRaise "denied");
                   log_put ">> done"; Wake IoOk]
                  (boot ""))
     = ((">> start" ++ nl) ++ (">> done" ++ nl))%string.
Proof.
  destruct (log_recorder_retries_failed_open all_encodable
              (run all_encodable [Start IoOk; log_put ">> start"] (boot ""))
              "" "denied" [(">> done" ++ nl)%string]
              eq_refl eq_refl eq_refl)
    as (H1 & H2 & _ & H4 & _).
  split; [exact H1|]. split; [exact H2|]. exact H4.
Defined.

(* ================================================================== *)
(** ** Slices *)
(* ================================================================== *)

Section Slices.

Lemma length_append (a b : string) :
  String.length (a ++ b) = (String.length a + String.length b)%nat.
Proof. induction a as [|c a IH]; simpl; [reflexivity | now rewrite IH]. Qed.

Lemma len_append (a b : string) : len (a ++ b) = len a + len b.
Proof. unfold len. rewrite length_append. lia. Qed.

Lemma len_nonneg (s : string) : 0 <= len s.
Proof. unfold len. lia. Qed.

Lemma substring_length (s : string) (n m : nat) :
  String.length (substring n m s) = Nat.min m (String.length s - n).
Proof.
  revert n m. induction s as [|c s IH]; intros [|n] [|m]; simpl;
    try reflexivity; try (rewrite IH; simpl; lia).
Qed.

Lemma len_substring (s : string) (n m : nat) :
  len (substring n m s) = Z.of_nat (Nat.min m (String.length s - n)).
Proof. unfold len. now rewrite substring_length. Qed.

Lemma substring_whole (s : string) (m : nat) :
  (String.length s <= m)%nat -> substring 0 m s = s.
Proof.
  revert m. induction s as [|c s IH]; intros [|m] H; simpl in *;
    try reflexivity; try lia.
  now rewrite IH by lia.
Qed.

Lemma substring_cut (s : string) (i j : nat) :
  (i <= j)%nat ->
  substring 0 j s = (substring 0 i s ++ substring i (j - i) s)%string.
Proof.
  revert i j. induction s as [|c s IH]; intros [|i] [|j] H; simpl;
    try reflexivity; try lia.
  - now rewrite (IH i j) by lia.
Qed.

(** A text is its first [i] characters, then those up to [j], then the
    rest. *)
Lemma substring_three (s : string) (i j : nat) :
  (i <= j)%nat -> (j <= String.length s)%nat ->
  s = (substring 0 i s ++ substring i (j - i) s
       ++ substring j (String.length s - j) s)%string.
Proof.
  intros Hij Hj.
  rewrite <- append_assoc, <- (substring_cut s i j Hij).
  rewrite <- (substring_whole s (String.length s)) at 1 by lia.
  rewrite (substring_cut s j (String.length s) Hj). reflexivity.
Qed.

(** [s[:k]] for a bound that is not negative. *)
Lemma slice_to (s : string) (k : Z) :
  0 <= k -> slice s None (Some k) = substring 0 (Z.to_nat (Z.min k (len s))) s.
Proof.
  intros Hk. unfold slice, clamp_index.
  replace (k <? 0) with false by (symmetry; apply Z.ltb_ge; lia).
  now rewrite Z.sub_0_r.
Qed.

(** [s[-p:]] for a positive [p] no longer than the text. *)
Lemma slice_last (s : string) (p : Z) :
  1 <= p <= len s ->
  slice s (Some (- p)) None
  = substring (Z.to_nat (len s - p)) (Z.to_nat p) s.
Proof.
  intros Hp. unfold slice, clamp_index.
  replace (- p <? 0) with true by (symmetry; apply Z.ltb_lt; lia).
  rewrite Z.max_l by lia. f_equal; lia.
Qed.

Lemma len_slice_to (s : string) (k : Z) :
  len (slice s None (Some k))
  = if k <? 0 then Z.max 0 (len s + k) else Z.min (len s) k.
Proof.
  unfold slice, clamp_index, len. cbv zeta. rewrite substring_length.
  destruct (Z.ltb_spec k 0); lia.
Qed.

End Slices.

(* ================================================================== *)
(** ** Results on [truncate] *)
(* ================================================================== *)

(** X13: the result of [truncate] is never longer than asked: for a
    length that is not negative it has [min (len (string), length)]
    characters.  A negative length does not give the empty text: it
    removes that many characters from the end. *)
Theorem truncate_len (string : string) (length : Z) :
  len (truncate string length)
  = if length <? 0 then Z.max 0 (len string + length)
    else Z.min (len string) length.
Proof.
  unfold truncate. change (len "...") with 3.
  destruct (Z.ltb_spec length (3 + 2)) as [Hs|Hs].
  - apply len_slice_to.
  - replace (length <? 0) with false by (symmetry; apply Z.ltb_ge; lia).
    destruct (Z.gtb_spec (len string) length) as [Hl|Hl]; [|lia].
    pose proof (Z.div_mod (length - 3) 2 ltac:(lia)) as Hdm.
    pose proof (Z.mod_pos_bound (length - 3) 2 ltac:(lia)) as Hm.
    rewrite !len_append, len_slice_to.
    replace ((length - 3) / 2 + (length - 3) mod 2 <? 0) with false
      by (symmetry; apply Z.ltb_ge; lia).
    rewrite slice_last by lia.
    change (len "...") with 3.
    rewrite len_substring. unfold len in *. lia.
Qed.

(** X14: a text that already fits is returned unchanged. *)
Theorem truncate_fits (string : string) (length : Z) :
  len string <= length -> truncate string length = string.
Proof.
  intros H. unfold truncate. change (len "...") with 3.
  pose proof (len_nonneg string) as Hn.
  destruct (Z.ltb_spec length (3 + 2)) as [Hs|Hs].
  - rewrite slice_to by lia. apply substring_whole. unfold len in *. lia.
  - destruct (Z.gtb_spec (len string) length); [lia | reflexivity].
Qed.

Lemma truncate_fits_witness :
  len "report.pdf" <= 20 /\ truncate "report.pdf" 20 = "report.pdf"%string.
Proof.
  split; [vm_compute; discriminate|].
  apply (truncate_fits "report.pdf" 20). vm_compute. discriminate.
Defined.

(** X15: a text longer than a length of at least 5 is cut in the middle:
    the result is its first [(length - 3) // 2 + (length - 3) mod 2]
    characters, three dots, and its last [(length - 3) // 2]
    characters. *)
Theorem truncate_middle (string : string) (length : Z) :
  5 <= length -> length < len string ->
  exists head middle tail,
    string = (head ++ middle ++ tail)%string
    /\ truncate string length = (head ++ "..." ++ tail)%string
    /\ len head = (length - 3) / 2 + (length - 3) mod 2
    /\ len tail = (length - 3) / 2
    /\ len middle = len string - length + 3.
Proof.
  intros H5 Hl.
  pose proof (Z.div_mod (length - 3) 2 ltac:(lia)) as Hdm.
  pose proof (Z.mod_pos_bound (length - 3) 2 ltac:(lia)) as Hm.
  set (part := (length - 3) / 2) in *.
  set (remainder := (length - 3) mod 2) in *.
  set (i := Z.to_nat (part + remainder)).
  set (j := Z.to_nat (len string - part)).
  assert (Hi : (i <= j)%nat) by (unfold i, j; lia).
  assert (Hj : (j <= String.length string)%nat) by (unfold j, len; lia).
  exists (substring 0 i string), (substring i (j - i) string),
         (substring j (String.length string - j) string).
  split; [exact (substring_three string i j Hi Hj)|].
  split.
  - unfold truncate. change (len "...") with 3.
    replace (length <? 3 + 2) with false by (symmetry; apply Z.ltb_ge; lia).
    replace (len string >? length) with true
      by (symmetry; apply Z.gtb_lt; lia).
    fold part remainder.
    rewrite slice_to, slice_last by lia.
    rewrite Z.min_l by lia. fold i j.
    replace (String.length string - j)%nat with (Z.to_nat part)
      by (unfold j, len; lia).
    reflexivity.
  - rewrite !len_substring. unfold i, j, len in *.
    repeat split; lia.
Qed.

Lemma truncate_middle_witness :
  5 <= 10 /\ 10 < len "abcdefghijklmnopqrstuvwxyz"
  /\ exists head middle tail,
       "abcdefghijklmnopqrstuvwxyz"%string = (head ++ middle ++ tail)%string
       /\ truncate "abcdefghijklmnopqrstuvwxyz" 10
          = (head ++ "..." ++ tail)%string
       /\ len head = (10 - 3) / 2 + (10 - 3) mod 2
       /\ len tail = (10 - 3) / 2
       /\ len middle = len "abcdefghijklmnopqrstuvwxyz" - 10 + 3.
Proof.
  split; [lia|]. split; [vm_compute; reflexivity|].
  apply (truncate_middle "abcdefghijklmnopqrstuvwxyz" 10);
    [lia | vm_compute; reflexivity].
Defined.

(* ================================================================== *)
(** ** Results on [validate_file_name] *)
(* ================================================================== *)

Section FileNames.

Lemma safe_char_allowed (c : Z) : forbidden (safe_char c) = false.
Proof.
  unfold safe_char. destruct (forbidden c) eqn:E; [reflexivity | exact E].
Qed.

Lemma safe_char_plane_0 (c : Z) :
  in_plane_0 c = true -> in_plane_0 (safe_char c) = true.
Proof.
  unfold safe_char. now destruct (forbidden c).
Qed.

Lemma map_safe_allowed (t : text) :
  forallb (fun c => negb (forbidden c)) (map safe_char t) = true.
Proof.
  induction t as [|c t IH]; simpl; [reflexivity|].
  now rewrite safe_char_allowed, IH.
Qed.

Lemma map_safe_plane_0 (t : text) :
  forallb in_plane_0 t = true -> forallb in_plane_0 (map safe_char t) = true.
Proof.
  induction t as [|c t IH]; simpl; [reflexivity|].
  intros H. apply andb_true_iff in H as [Hc Ht].
  now rewrite (safe_char_plane_0 c Hc), (IH Ht).
Qed.

Lemma map_safe_id (t : text) :
  forallb (fun c => negb (forbidden c)) t = true -> map safe_char t = t.
Proof.
  induction t as [|c t IH]; simpl; [reflexivity|].
  intros H. apply andb_true_iff in H as [Hc Ht].
  unfold safe_char at 1. apply negb_true_iff in Hc. rewrite Hc.
  now rewrite IH.
Qed.

Lemma filter_plane_0 (t : text) : forallb in_plane_0 (filter in_plane_0 t) = true.
Proof.
  induction t as [|c t IH]; simpl; [reflexivity|].
  destruct (in_plane_0 c) eqn:E; simpl; [now rewrite E|exact IH].
Qed.

Lemma filter_all (t : text) :
  forallb in_plane_0 t = true -> filter in_plane_0 t = t.
Proof.
  induction t as [|c t IH]; simpl; [reflexivity|].
  intros H. apply andb_true_iff in H as [Hc Ht].
  now rewrite Hc, (IH Ht).
Qed.

(** The loop from a count of [count]: it visits [246 - count] characters
    at most, and appends the tail of the name when it visits that many. *)
Lemma validate_loop_spec (f_name rest safe_string : text) (count : Z) :
  1 <= count <= 245 ->
  validate_loop f_name rest safe_string count
  = if Z.of_nat (List.length rest) <? 246 - count
    then safe_string ++ map safe_char rest
    else safe_string
         ++ map safe_char (firstn (Z.to_nat (246 - count)) rest)
         ++ slice_text f_name (Some (-10)) None.
Proof.
  revert safe_string count.
  induction rest as [|c r IH]; intros safe_string count Hc.
  - cbn [validate_loop List.length map Z.of_nat].
    destruct (Z.ltb_spec 0 (246 - count)); [now rewrite app_nil_r | lia].
  - cbn [validate_loop].
    assert (Hstep : (if forbidden c then safe_string ++ [underscore]
                     else safe_string ++ [c])
                    = safe_string ++ [safe_char c]).
    { unfold safe_char. now destruct (forbidden c). }
    rewrite Hstep.
    destruct (Z.geb_spec count 245) as [Hb|Hb].
    + assert (count = 245) by lia. subst count.
      replace (Z.of_nat (List.length (c :: r)) <? 246 - 245) with false
        by (symmetry; apply Z.ltb_ge; simpl List.length; lia).
      change (Z.to_nat (246 - 245)) with 1%nat. simpl firstn.
      simpl map. now rewrite <- !app_assoc.
    + rewrite IH by lia.
      replace (Z.of_nat (List.length (c :: r)) <? 246 - count)
        with (Z.of_nat (List.length r) <? 246 - (count + 1))
        by (simpl List.length;
            destruct (Z.ltb_spec (Z.of_nat (List.length r))
                                 (246 - (count + 1)));
            symmetry; [apply Z.ltb_lt | apply Z.ltb_ge]; lia).
      destruct (Z.of_nat (List.length r) <? 246 - (count + 1)).
      * simpl map. now rewrite <- !app_assoc.
      * replace (Z.to_nat (246 - count))
          with (S (Z.to_nat (246 - (count + 1)))) by lia.
        simpl firstn. simpl map. now rewrite <- !app_assoc.
Qed.

(** [t[-10:]] is the last ten characters of a text that has ten. *)
Lemma slice_last_ten (t : text) :
  (10 <= List.length t)%nat ->
  slice_text t (Some (-10)) None = skipn (List.length t - 10) t
  /\ List.length (slice_text t (Some (-10)) None) = 10%nat.
Proof.
  intros H. unfold slice_text, clamp_index. cbv zeta.
  replace (-10 <? 0) with true by reflexivity.
  rewrite Z.max_l by lia.
  replace (Z.to_nat (Z.of_nat (List.length t) + -10))
    with (List.length t - 10)%nat by lia.
  replace (Z.to_nat (Z.of_nat (List.length t)
                     - (Z.of_nat (List.length t) + -10)))
    with 10%nat by lia.
  assert (Hl : List.length (skipn (List.length t - 10) t) = 10%nat)
    by (rewrite length_skipn; lia).
  rewrite firstn_all2 by lia. auto.
Qed.

End FileNames.

(** X16: [validate_file_name] first drops the characters whose code is
    65536 or more.  When fewer than 245 characters are left, it replaces
    each forbidden one by an underscore and keeps the others: the result
    has as many characters as were left, holds no forbidden character and
    no character beyond 65535, and is the name itself when the name holds
    neither. *)
Theorem validate_file_name_short (f_name : text) :
  Z.of_nat (List.length (filter in_plane_0 f_name)) < 245 ->
  validate_file_name f_name = map safe_char (filter in_plane_0 f_name)
  /\ List.length (validate_file_name f_name)
     = List.length (filter in_plane_0 f_name)
  /\ forallb (fun c => negb (forbidden c)) (validate_file_name f_name) = true
  /\ forallb in_plane_0 (validate_file_name f_name) = true
  /\ (forallb in_plane_0 f_name = true ->
      forallb (fun c => negb (forbidden c)) f_name = true ->
      validate_file_name f_name = f_name).
Proof.
  intros H.
  assert (E : validate_file_name f_name
              = map safe_char (filter in_plane_0 f_name)).
  { unfold validate_file_name. cbv zeta.
    rewrite validate_loop_spec by lia.
    replace (Z.of_nat (List.length (filter in_plane_0 f_name)) <? 246 - 1)
      with true by (symmetry; apply Z.ltb_lt; lia).
    reflexivity. }
  rewrite E. repeat split.
  - apply length_map.
  - apply map_safe_allowed.
  - apply map_safe_plane_0, filter_plane_0.
  - intros Hp Hf. rewrite (filter_all f_name Hp). now apply map_safe_id.
Qed.

Lemma validate_file_name_short_witness :
  validate_file_name [97; 128512; 47; 98; 46; 116; 120; 116]
  = [97; 95; 98; 46; 116; 120; 116].
Proof.
  apply (validate_file_name_short [97; 128512; 47; 98; 46; 116; 120; 116]).
  vm_compute. reflexivity.
Defined.

(** X17: when 245 characters or more are left after the characters
    beyond 65535 are dropped, [validate_file_name] keeps the first 245 of
    them, cleaned, and appends the last ten of them as they are,
    forbidden characters included; the result has 255 characters. *)
Theorem validate_file_name_long (f_name : text) :
  245 <= Z.of_nat (List.length (filter in_plane_0 f_name)) ->
  validate_file_name f_name
  = map safe_char (firstn 245 (filter in_plane_0 f_name))
    ++ skipn (List.length (filter in_plane_0 f_name) - 10)
             (filter in_plane_0 f_name)
  /\ List.length (validate_file_name f_name) = 255%nat.
Proof.
  intros H. set (kept := filter in_plane_0 f_name) in *.
  destruct (slice_last_ten kept ltac:(lia)) as (Hs & Hl).
  assert (E : validate_file_name f_name
              = map safe_char (firstn 245 kept)
                ++ skipn (List.length kept - 10) kept).
  { unfold validate_file_name. cbv zeta. fold kept.
    rewrite validate_loop_spec by lia.
    replace (Z.of_nat (List.length kept) <? 246 - 1) with false
      by (symmetry; apply Z.ltb_ge; lia).
    rewrite Hs. reflexivity. }
  split; [exact E|].
  rewrite E, length_app, length_map, length_firstn, length_skipn. lia.
Qed.

Lemma validate_file_name_long_witness :
  245 <= Z.of_nat (List.length (filter in_plane_0 sample_long_name))
  /\ validate_file_name sample_long_name
     = map safe_char (firstn 245 (filter in_plane_0 sample_long_name))
       ++ skipn (List.length (filter in_plane_0 sample_long_name) - 10)
                (filter in_plane_0 sample_long_name)
  /\ List.length (validate_file_name sample_long_name) = 255%nat.
Proof.
  split; [vm_compute; discriminate|].
  apply (validate_file_name_long sample_long_name). vm_compute. discriminate.
Defined.

(* ================================================================== *)
(** ** Results on [compare_versions] *)
(* ================================================================== *)

Section Versions.

Lemma compare_loop_swap (idx : list Z) (a b : list Z) (x y : string) :
  or_none (compare_loop idx a b x y) = or_none (compare_loop idx b a y x).
Proof.
  induction idx as [|i rest IH]; [reflexivity|]. simpl.
  unfold index.
  destruct (nth_error a (Z.to_nat i)) as [ai|];
    destruct (nth_error b (Z.to_nat i)) as [bi|]; simpl; try reflexivity.
  destruct (Z.gtb_spec ai bi), (Z.ltb_spec ai bi),
    (Z.gtb_spec bi ai), (Z.ltb_spec bi ai); try lia; auto.
Qed.

Lemma compare_loop_same (idx : list Z) (a : list Z) (x : string) :
  or_none (compare_loop idx a a x x) = None.
Proof.
  induction idx as [|i rest IH]; [reflexivity|]. simpl.
  unfold index. destruct (nth_error a (Z.to_nat i)) as [ai|]; simpl; auto.
  destruct (Z.gtb_spec ai ai), (Z.ltb_spec ai ai); try lia; auto.
Qed.

End Versions.

(** X18: [compare_versions] does not depend on the order of its
    arguments, and a version compared with itself gives [None]. *)
Theorem compare_versions_symmetric (x y : string) :
  compare_versions x y = compare_versions y x
  /\ compare_versions x x = None.
Proof.
  unfold compare_versions, compare_versions_try. split.
  - destruct (map_int (firstn 3 (split "." x))) as [a|e];
      destruct (map_int (firstn 3 (split "." y))) as [b|e']; simpl;
      try reflexivity.
    exact (compare_loop_swap (range 3) a b x y).
  - destruct (map_int (firstn 3 (split "." x))) as [a|e]; simpl;
      [exact (compare_loop_same (range 3) a x) | reflexivity].
Qed.

(** X19: when the first three dot-separated fields of both versions are
    integers, [compare_versions] returns the version that comes later in
    dictionary order of the three numbers, and [None] when the three
    numbers agree. *)
Theorem compare_versions_higher (x y : string) (a0 a1 a2 b0 b1 b2 : Z) :
  map_int (firstn 3 (split "." x)) = Ok [a0; a1; a2] ->
  map_int (firstn 3 (split "." y)) = Ok [b0; b1; b2] ->
  (version_lt (b0, b1, b2) (a0, a1, a2) -> compare_versions x y = Some x)
  /\ (version_lt (a0, a1, a2) (b0, b1, b2) -> compare_versions x y = Some y)
  /\ ((a0, a1, a2) = (b0, b1, b2) -> compare_versions x y = None).
Proof.
  intros Ha Hb. unfold compare_versions, compare_versions_try, version_lt.
  rewrite Ha, Hb. simpl.
  destruct (Z.gtb_spec a0 b0), (Z.ltb_spec a0 b0),
    (Z.gtb_spec a1 b1), (Z.ltb_spec a1 b1),
    (Z.gtb_spec a2 b2), (Z.ltb_spec a2 b2);
    repeat split; intros Hv; try reflexivity; try lia;
    try (injection Hv; lia).
Qed.

Lemma compare_versions_higher_witness :
  compare_versions "2020.10.6" "2020.3.7" = Some "2020.10.6"%string.
Proof.
  apply (proj1 (compare_versions_higher "2020.10.6" "2020.3.7"
                  2020 10 6 2020 3 7 eq_refl eq_refl)).
  simpl. lia.
Defined.

(** X20: with fewer than three fields the comparison stops at the first
    missing field: a version of one or two integer fields compared with
    any version that begins with the same numbers gives [None], in
    either order, however many fields the other one has. *)
Theorem compare_versions_short (x y : string) (a rest : list Z) :
  map_int (firstn 3 (split "." x)) = Ok a ->
  map_int (firstn 3 (split "." y)) = Ok (a ++ rest) ->
  (List.length a < 3)%nat ->
  compare_versions x y = None /\ compare_versions y x = None.
Proof.
  intros Ha Hb Hlen.
  assert (E : compare_versions x y = None).
  { unfold compare_versions, compare_versions_try. rewrite Ha, Hb. simpl.
    destruct a as [|a0 [|a1 [|a2 t]]]; simpl in Hlen; try lia.
    - reflexivity.
    - unfold index; simpl.
      destruct (Z.gtb_spec a0 a0), (Z.ltb_spec a0 a0); try lia. reflexivity.
    - unfold index; simpl.
      destruct (Z.gtb_spec a0 a0), (Z.ltb_spec a0 a0); try lia.
      destruct (Z.gtb_spec a1 a1), (Z.ltb_spec a1 a1); try lia. reflexivity. }
  split; [exact E|].
  now rewrite <- (proj1 (compare_versions_symmetric x y)).
Qed.

Lemma compare_versions_short_witness :
  compare_versions "2020.1" "2020.1.5" = None
  /\ compare_versions "2020.1.5" "2020.1" = None.
Proof.
  apply (compare_versions_short "2020.1" "2020.1.5" [2020; 1] [5]);
    [reflexivity | reflexivity | simpl; lia].
Defined.

(* ================================================================== *)
(** ** Results on [auto_rename] *)
(* ================================================================== *)

Section Renaming.

Variable splitext : string -> string * string.

(** From number [i] the loop returns the first free numbered name, if it
    meets one before it runs out of numbers. *)
Lemma auto_rename_loop_first_free (name ext : string) (file_list : list string)
  (k : Z) (fuel : nat) (i : Z) (new_name : string) :
  i <= k < i + Z.of_nat fuel ->
  (forall j, i <= j < k -> in_list (numbered_name name ext j) file_list = true) ->
  in_list (numbered_name name ext k) file_list = false ->
  auto_rename_loop fuel i name ext file_list new_name
  = numbered_name name ext k.
Proof.
  revert i new_name. induction fuel as [|fuel IH]; intros i new_name Hk Htaken Hfree;
    [lia|].
  cbn [auto_rename_loop].
  destruct (Z.eq_dec i k) as [->|Hne].
  - now rewrite Hfree.
  - rewrite (Htaken i) by lia. simpl negb. cbv iota.
    apply IH; [lia| |exact Hfree].
    intros j Hj. apply Htaken. lia.
Qed.

(** When every number is taken the loop returns the last name it tried. *)
Lemma auto_rename_loop_all_taken (name ext : string) (file_list : list string)
  (fuel : nat) (i : Z) (new_name : string) :
  (forall j, i <= j < i + Z.of_nat (S fuel) ->
             in_list (numbered_name name ext j) file_list = true) ->
  auto_rename_loop (S fuel) i name ext file_list new_name
  = numbered_name name ext (i + Z.of_nat fuel).
Proof.
  revert i new_name. induction fuel as [|fuel IH]; intros i new_name Htaken.
  - cbn [auto_rename_loop]. rewrite (Htaken i) by lia. simpl.
    f_equal. lia.
  - cbn [auto_rename_loop]. rewrite (Htaken i) by lia. simpl negb. cbv iota.
    change (auto_rename_loop (S fuel) (i + 1) name ext file_list
              (numbered_name name ext i)
            = numbered_name name ext (i + Z.of_nat (S fuel))).
    rewrite IH.
    + f_equal. lia.
    + intros j Hj. apply Htaken. lia.
Qed.

End Renaming.

(** X21: [auto_rename] returns the name numbered with the least number
    from 2 to 999999 that is not in the folder, so the name it returns is
    not in the folder. *)
Theorem auto_rename_first_free
  (splitext : string -> string * string) (file_name : string)
  (file_list : list string) (k : Z) :
  2 <= k <= 999999 ->
  (forall j, 2 <= j < k ->
     in_list (numbered_name (fst (splitext file_name))
                            (snd (splitext file_name)) j) file_list = true) ->
  in_list (numbered_name (fst (splitext file_name))
                         (snd (splitext file_name)) k) file_list = false ->
  auto_rename splitext file_name file_list
  = numbered_name (fst (splitext file_name)) (snd (splitext file_name)) k
  /\ in_list (auto_rename splitext file_name file_list) file_list = false.
Proof.
  intros Hk Htaken Hfree.
  assert (E : auto_rename splitext file_name file_list
              = numbered_name (fst (splitext file_name))
                              (snd (splitext file_name)) k).
  { unfold auto_rename. destruct (splitext file_name) as [name ext].
    simpl fst in *; simpl snd in *.
    apply auto_rename_loop_first_free; [|exact Htaken|exact Hfree].
    rewrite Z2Nat.id by lia. lia. }
  split; [exact E | now rewrite E].
Qed.

Lemma auto_rename_first_free_witness :
  auto_rename sample_splitext "a.txt" ["a_2.txt"; "a_3.txt"] = "a_4.txt"%string
  /\ in_list (auto_rename sample_splitext "a.txt" ["a_2.txt"; "a_3.txt"])
             ["a_2.txt"; "a_3.txt"] = false.
Proof.
  apply (auto_rename_first_free sample_splitext "a.txt"
           ["a_2.txt"; "a_3.txt"] 4).
  - lia.
  - intros j Hj.
    assert (Hc : j = 2 \/ j = 3) by lia.
    destruct Hc as [-> | ->]; reflexivity.
  - reflexivity.
Defined.

(** X22: when the folder holds every numbered name from 2 to 999999,
    [auto_rename] gives up and returns the last of them, a name that is
    in the folder. *)
Theorem auto_rename_exhausted
  (splitext : string -> string * string) (file_name : string)
  (file_list : list string) :
  (forall j, 2 <= j <= 999999 ->
     in_list (numbered_name (fst (splitext file_name))
                            (snd (splitext file_name)) j) file_list = true) ->
  auto_rename splitext file_name file_list
  = numbered_name (fst (splitext file_name)) (snd (splitext file_name)) 999999
  /\ in_list (auto_rename splitext file_name file_list) file_list = true.
Proof.
  intros Htaken.
  assert (E : auto_rename splitext file_name file_list
              = numbered_name (fst (splitext file_name))
                              (snd (splitext file_name)) 999999).
  { unfold auto_rename. destruct (splitext file_name) as [name ext].
    simpl fst in *; simpl snd in *.
    replace (Z.to_nat (1000000 - 2)) with (S (Z.to_nat 999997)) by lia.
    rewrite auto_rename_loop_all_taken.
    - rewrite Z2Nat.id by lia. reflexivity.
    - intros j Hj. apply Htaken. lia. }
  split; [exact E|]. rewrite E. apply Htaken. lia.
Qed.

(* ================================================================== *)
(** ** Results on [log] *)
(* ================================================================== *)

Section LogText.

Lemma substring_prefix (t u : string) :
  substring 0 (String.length t) (t ++ u) = t.
Proof.
  induction t as [|c t IH]; simpl; [now destruct u | now rewrite IH].
Qed.

(** [(t + c)[:-1]] is [t]. *)
Lemma slice_drop_last (t : string) (c : ascii) :
  slice (t ++ String c EmptyString) None (Some (-1)) = t.
Proof.
  unfold slice, clamp_index. cbv zeta.
  replace (-1 <? 0) with true by reflexivity.
  rewrite len_append. change (len (String c EmptyString)) with 1.
  pose proof (len_nonneg t).
  rewrite Z.max_l by lia.
  replace (Z.to_nat (len t + 1 + -1 - 0)) with (String.length t)
    by (unfold len; lia).
  apply substring_prefix.
Qed.

Lemma log_args_spec (args : list string) (sep text : string) :
  Logger.log_args args sep text
  = (text ++ join (map (fun a => (a ++ sep)%string) args))%string.
Proof.
  revert text. induction args as [|a rest IH]; intros text; simpl.
  - now rewrite append_empty_r.
  - now rewrite IH, !append_assoc.
Qed.

Lemma join_with_sep (sep : string) (args : list string) :
  args <> [] ->
  join (map (fun a => (a ++ sep)%string) args)
  = (Logger.join_with sep args ++ sep)%string.
Proof.
  induction args as [|a rest IH]; intros Hne; [contradiction|].
  destruct rest as [|b rest'].
  - simpl. now rewrite append_empty_r.
  - change (join (map (fun a0 => (a0 ++ sep)%string) (a :: b :: rest')))
      with ((a ++ sep)
            ++ join (map (fun a0 => (a0 ++ sep)%string) (b :: rest')))%string.
    rewrite IH by discriminate.
    change (Logger.join_with sep (a :: b :: rest'))
      with (a ++ sep ++ Logger.join_with sep (b :: rest'))%string.
    now rewrite !append_assoc.
Qed.

End LogText.

(** X23: [log] joins its arguments with the separator and then removes
    one character only: with a one-character separator the text is the
    start followed by the joined arguments, and with a longer separator
    the separator but for its last character is left at the end. *)
Theorem log_text_joined (args : list string) (start sep_front : string)
  (sep_last : ascii) :
  args <> [] ->
  Logger.log_text args start (sep_front ++ String sep_last EmptyString)
  = (start
     ++ Logger.join_with (sep_front ++ String sep_last EmptyString) args
     ++ sep_front)%string.
Proof.
  intros Hne. unfold Logger.log_text. cbv zeta.
  rewrite log_args_spec. simpl append at 1.
  rewrite (join_with_sep _ args Hne).
  rewrite <- append_assoc, slice_drop_last. reflexivity.
Qed.

Lemma log_text_joined_witness :
  Logger.log_text ["download"; "done"] ">> " " " = ">> download done"%string.
Proof.
  apply (log_text_joined ["download"; "done"] ">> " "" " "%char).
  discriminate.
Defined.

(** X24: with an empty separator the character [log] removes is the last
    character of the arguments themselves. *)
Theorem log_text_empty_sep (args : list string) (start front : string)
  (last_char : ascii) :
  join args = (front ++ String last_char EmptyString)%string ->
  Logger.log_text args start "" = (start ++ front)%string.
Proof.
  intros H. unfold Logger.log_text. cbv zeta.
  rewrite log_args_spec. simpl append at 1.
  replace (map (fun a => (a ++ "")%string) args) with args.
  - now rewrite H, slice_drop_last.
  - rewrite <- (map_id args) at 1. apply map_ext.
    intros a. now rewrite append_empty_r.
Qed.

Lemma log_text_empty_sep_witness :
  Logger.log_text ["ab"; "cd"] ">> " "" = ">> abc"%string.
Proof.
  apply (log_text_empty_sep ["ab"; "cd"] ">> " "abc" "d"%char).
  reflexivity.
Defined.

(* ================================================================== *)
(** ** Results on [get_headers] *)
(* ================================================================== *)

Import Probe.

Section Headers.

Lemma dict_get_set_same (d : dict) (k : string) (v : hval) :
  dict_get (dict_set d k v) k = Some v.
Proof.
  induction d as [|[k' v'] t IH]; simpl.
  - now rewrite String.eqb_refl.
  - destruct (String.eqb k' k) eqn:E; simpl.
    + now rewrite String.eqb_refl.
    + now rewrite E.
Qed.

Lemma dict_get_set_other (d : dict) (k k' : string) (v : hval) :
  k <> k' -> dict_get (dict_set d k v) k' = dict_get d k'.
Proof.
  intros Hne. induction d as [|[k0 v0] t IH]; simpl.
  - destruct (String.eqb_spec k k'); [contradiction | reflexivity].
  - destruct (String.eqb_spec k0 k) as [->|Hk]; simpl.
    + destruct (String.eqb_spec k k'); [contradiction | reflexivity].
    + destruct (String.eqb k0 k'); [reflexivity | exact IH].
Qed.

Lemma lower_char_colon (c : ascii) :
  Ascii.eqb (lower_char c) ":" = Ascii.eqb c ":".
Proof. destruct c as [[] [] [] [] [] [] [] []]; reflexivity. Qed.

Lemma lower_char_idem (c : ascii) : lower_char (lower_char c) = lower_char c.
Proof. destruct c as [[] [] [] [] [] [] [] []]; reflexivity. Qed.

Lemma has_colon_lower (s : string) : has_char ":" (lower s) = has_char ":" s.
Proof.
  unfold lower. induction s as [|c s IH]; simpl; [reflexivity|].
  now rewrite lower_char_colon, IH.
Qed.

Lemma lower_idem (s : string) : lower (lower s) = lower s.
Proof.
  unfold lower. induction s as [|c s IH]; simpl; [reflexivity|].
  now rewrite lower_char_idem, IH.
Qed.

Lemma lower_append (a b : string) : lower (a ++ b) = (lower a ++ lower b)%string.
Proof.
  unfold lower. induction a as [|c a IH]; simpl; [reflexivity|].
  now rewrite IH.
Qed.

Lemma split_once_at (sep : ascii) (a b : string) :
  has_char sep a = false ->
  split_once sep (a ++ String sep b) = [a; b].
Proof.
  induction a as [|c a IH]; simpl.
  - now rewrite Ascii.eqb_refl.
  - intros H. apply orb_false_iff in H as [Hc Ha].
    now rewrite Hc, (IH Ha).
Qed.

Lemma has_char_at (sep : ascii) (a b : string) :
  has_char sep (a ++ String sep b) = true.
Proof.
  induction a as [|c a IH]; simpl.
  - now rewrite Ascii.eqb_refl.
  - rewrite IH. apply orb_true_r.
Qed.

Lemma header_callback_skips (verbose : bool) (st : dict * Logger.log_state)
  (arrival : bool * string) :
  relevant arrival = false -> header_callback verbose st arrival = st.
Proof.
  destruct st as [d ls], arrival as [t line].
  unfold relevant, header_callback; cbn [fst snd].
  destruct t; [reflexivity|]. cbn [negb andb]. intros H.
  now rewrite has_colon_lower, H.
Qed.

Lemma header_callback_lower (verbose : bool) (st : dict * Logger.log_state)
  (t : bool) (line : string) :
  header_callback verbose st (t, lower line)
  = header_callback verbose st (t, line).
Proof.
  destruct st as [d ls]. unfold header_callback. now rewrite lower_idem.
Qed.

Lemma fold_callback_filter (verbose : bool) (lines : list (bool * string))
  (st : dict * Logger.log_state) :
  fold_left (header_callback verbose) (filter relevant lines) st
  = fold_left (header_callback verbose) lines st.
Proof.
  revert st. induction lines as [|a t IH]; intros st; simpl; [reflexivity|].
  destruct (relevant a) eqn:E; simpl.
  - apply IH.
  - now rewrite (header_callback_skips verbose st a E).
Qed.

Lemma fold_callback_lower (verbose : bool) (lines : list (bool * string))
  (st : dict * Logger.log_state) :
  fold_left (header_callback verbose)
            (map (fun a => (fst a, lower (snd a))) lines) st
  = fold_left (header_callback verbose) lines st.
Proof.
  revert st. induction lines as [|[t line] rest IH]; intros st; simpl;
    [reflexivity|].
  now rewrite header_callback_lower, IH.
Qed.

End Headers.

(** X25: whatever the server sends and whether or not the transfer
    fails, the dictionary [get_headers] returns maps ['status_code'] to
    the response code and ['eff_url'] to the effective URL reported by
    the handle, over any header of the same name. *)
Theorem get_headers_status_and_url (cfg : config) (url : string)
  (verbose : bool) (tr : transfer) (ls : Logger.log_state) :
  let d := fst (get_headers cfg url verbose tr ls) in
  dict_get d "status_code" = Some (HInt (response_code tr))
  /\ dict_get d "eff_url" = Some (HStr (effective_url tr)).
Proof.
  cbv zeta. unfold get_headers.
  destruct (fold_left (header_callback verbose) (header_lines tr) _)
    as [d ls']. simpl fst. split.
  - rewrite dict_get_set_other by discriminate. apply dict_get_set_same.
  - apply dict_get_set_same.
Qed.

(** X26: header lines without a colon, and lines that arrive while the
    termination flag is raised, change nothing: the result is the one of
    the transfer without them. *)
Theorem get_headers_ignores_lines (cfg : config) (url : string)
  (verbose : bool) (tr : transfer) (ls : Logger.log_state) :
  get_headers cfg url verbose
              (with_lines tr (filter relevant (header_lines tr))) ls
  = get_headers cfg url verbose tr ls.
Proof.
  unfold get_headers, with_lines. simpl.
  now rewrite fold_callback_filter.
Qed.

(** X27: the letter case of the header lines does not matter: the result
    is the one of the same lines in lower case. *)
Theorem get_headers_case_insensitive (cfg : config) (url : string)
  (verbose : bool) (tr : transfer) (ls : Logger.log_state) :
  get_headers cfg url verbose
    (with_lines tr (map (fun a => (fst a, lower (snd a))) (header_lines tr)))
    ls
  = get_headers cfg url verbose tr ls.
Proof.
  unfold get_headers, with_lines. simpl.
  now rewrite fold_callback_lower.
Qed.

(** X28: a line [name:value] received with the flag down is stored under
    the name in lower case, stripped of surrounding white space, with the
    value, in lower case and stripped as well, taken from the first colon
    to the end of the line; it replaces what the name held. *)
Theorem header_callback_stores (verbose : bool) (d : dict)
  (ls : Logger.log_state) (name value : string) :
  has_char ":" name = false ->
  let d' := fst (header_callback verbose (d, ls)
                   (false, (name ++ ":" ++ value)%string)) in
  d' = dict_set d (ustrip (lower name)) (HStr (ustrip (lower value)))
  /\ dict_get d' (ustrip (lower name)) = Some (HStr (ustrip (lower value))).
Proof.
  intros Hn. cbv zeta.
  assert (E : fst (header_callback verbose (d, ls)
                     (false, (name ++ ":" ++ value)%string))
              = dict_set d (ustrip (lower name)) (HStr (ustrip (lower value)))).
  { unfold header_callback. simpl append.
    rewrite lower_append. change (lower (String ":" value))
      with (String ":"%char (lower value)).
    rewrite has_char_at. simpl negb. cbv iota.
    rewrite split_once_at by (now rewrite has_colon_lower).
    now destruct verbose. }
  split; [exact E|]. rewrite E. apply dict_get_set_same.
Qed.

Lemma header_callback_stores_witness :
  dict_get (fst (header_callback false ([], quiet)
                   (false, (" ETag " ++ ":" ++ " AbC:De ")%string)))
           (ustrip (lower " ETag "))
  = Some (HStr (ustrip (lower " AbC:De "))).
Proof.
  apply (header_callback_stores false [] quiet " ETag " " AbC:De ").
  reflexivity.
Defined.

Lemma auto_rename_exhausted_witness :
  auto_rename sample_splitext "a.txt" sample_full_folder
  = numbered_name "a" ".txt" 999999
  /\ in_list (auto_rename sample_splitext "a.txt" sample_full_folder)
             sample_full_folder = true.
Proof.
  apply (auto_rename_exhausted sample_splitext "a.txt" sample_full_folder).
  intros j Hj. unfold in_list. apply existsb_exists.
  exists (numbered_name "a" ".txt" j). split; [|apply String.eqb_refl].
  unfold sample_full_folder. apply in_map_iff.
  exists (j - 2). split; [f_equal; lia|].
  unfold range. apply in_map_iff. exists (Z.to_nat (j - 2)).
  split; [lia|]. apply in_seq. lia.
Defined.
